(** * Verification of the data-dashboard table engine

    A shallow embedding of [src/components/BigQueryTable.tsx],
    [src/lib/bigquery.ts] and [src/app/page.tsx].

    Conventions of the embedding:
    - a JavaScript [number] holding a row count is an integer [Z]
      (the warehouse column is an INTEGER; on integers in the safe range
      JavaScript arithmetic and [String(n)] are exact);
    - a JavaScript string is a Rocq [string], the bytes of its UTF-8
      form: the characters below 128 are the ASCII characters;
    - the host's [toLowerCase], [localeCompare], [toLocaleString] and
      time zone are parameters of the engine; what a theorem needs of
      them is a hypothesis;
    - arrays and record objects live in a store where mutation is at
      stake, and are plain lists elsewhere;
    - [console.error] is left out of [formatDate] and kept in the trace
      of [fetchBigQueryData]. *)

From Stdlib Require Import ZArith String Ascii List Bool Lia Sorted Permutation.
From stdpp Require Import gmap strings pretty.
Import ListNotations.
Local Open Scope Z_scope.

(** ** JavaScript values and strings *)

(** The primitive values a record field can hold at run time. *)
Inductive JsValue : Type :=
| VNull
| VUndefined
| VString (s : string)
| VNumber (n : Z)
| VBoolean (b : bool).

(** [v === null || v === undefined] *)
Definition is_nullish (v : JsValue) : bool :=
  match v with
  | VNull | VUndefined => true
  | _ => false
  end.

(** [String(v)] *)
Definition js_String (v : JsValue) : string :=
  match v with
  | VNull => "null"
  | VUndefined => "undefined"
  | VString s => s
  | VNumber n => pretty n
  | VBoolean b => if b then "true" else "false"
  end.

(** A string used as a condition: true exactly when it is not empty. *)
Definition truthy (s : string) : bool :=
  match s with
  | EmptyString => false
  | String _ _ => true
  end.

Definition lower_ascii (c : ascii) : ascii :=
  let n := N_of_ascii c in
  if (65 <=? n)%N && (n <=? 90)%N then ascii_of_N (n + 32) else c.

(** The letters A-Z folded to a-z, every other character kept: what
    [toLowerCase] answers on ASCII text. *)
Fixpoint asciiLowerCase (s : string) : string :=
  match s with
  | EmptyString => EmptyString
  | String c s' => String (lower_ascii c) (asciiLowerCase s')
  end.

(** [s.includes(t)]: [t] occurs in [s] at some position. *)
Fixpoint includes (s t : string) : bool :=
  String.prefix t s ||
  match s with
  | EmptyString => false
  | String _ s' => includes s' t
  end.

(** The substring relation of the specification. *)
Definition is_substring (t s : string) : Prop :=
  exists pre post, s = (pre +:+ t +:+ post)%string.

(** ** The data model *)

(** [keyof SerializableBigQueryRecord] *)
Module Key.
Inductive t : Type := load_date | source | record_count | load_status.

Definition eqb (a b : t) : bool :=
  match a, b with
  | load_date, load_date | source, source
  | record_count, record_count | load_status, load_status => true
  | _, _ => false
  end.

(** The property name, as the header cell prints it. *)
Definition name (k : t) : string :=
  match k with
  | load_date => "load_date"
  | source => "source"
  | record_count => "record_count"
  | load_status => "load_status"
  end.
End Key.

Record SerializableBigQueryRecord : Type := {
  load_date : option string;
  source : string;
  record_count : Z;
  load_status : bool
}.

(** [item[k]] *)
Definition field (item : SerializableBigQueryRecord) (k : Key.t) : JsValue :=
  match k with
  | Key.load_date =>
      match load_date item with Some s => VString s | None => VNull end
  | Key.source => VString (source item)
  | Key.record_count => VNumber (record_count item)
  | Key.load_status => VBoolean (load_status item)
  end.

Inductive Direction : Type := ascending | descending.

Record SortConfig : Type := {
  key : option Key.t;
  direction : Direction
}.

(** [FilterValues], as the entries [Object.entries] enumerates. *)
Definition FilterValues : Type := list (Key.t * string).

(** ** The derivation: filter, then sort *)

Section Engine.
(** The element type of the arrays and how a field is read from an
    element: records themselves, or references into a store. *)
Context {A : Type} (get : A -> Key.t -> JsValue).
(** [String.prototype.localeCompare] of the host. *)
Variable localeCompare : string -> string -> Z.
(** [String.prototype.toLowerCase] of the host. *)
Variable toLowerCase : string -> string.

(** The callback of [filteredData.filter] (lines 69-81). *)
Definition filterItem (filterKey : Key.t) (filterValueLower : string)
    (item : A) : bool :=
  let itemValue := get item filterKey in
  if is_nullish itemValue then false
  else
    match itemValue with
    | VBoolean _ =>
        includes (toLowerCase (js_String itemValue)) filterValueLower
    | _ => includes (toLowerCase (js_String itemValue)) filterValueLower
    end.

(** One turn of the [forEach] over the filter entries (lines 64-83). *)
Definition applyFilter (filteredData : list A) (entry : Key.t * string)
    : list A :=
  let '(k, v) := entry in
  if truthy v then List.filter (filterItem k (toLowerCase v)) filteredData
  else filteredData.

Definition applyFilters (data : list A) (filterValues : FilterValues)
    : list A :=
  fold_left applyFilter filterValues data.

(** The comparator handed to [sort] (lines 87-108). *)
Definition compareFn (k : Key.t) (d : Direction) (a b : A) : Z :=
  let aValue := get a k in
  let bValue := get b k in
  if is_nullish aValue then
    match d with ascending => -1 | descending => 1 end
  else if is_nullish bValue then
    match d with ascending => 1 | descending => -1 end
  else
    let comparison :=
      match aValue, bValue with
      | VNumber x, VNumber y => x - y
      | VBoolean x, VBoolean y =>
          if Bool.eqb x y then 0 else if x then 1 else -1
      | _, _ => localeCompare (js_String aValue) (js_String bValue)
      end in
    match d with
    | ascending => comparison
    | descending => comparison * -1
    end.

(** [Array.prototype.sort] is a stable comparison sort.  It is
    modelled by stable insertion: the elements are taken from left to
    right and each is put before the first element of the sorted
    part that the comparator places strictly after it. *)
Fixpoint insert (cmp : A -> A -> Z) (x : A) (sorted : list A) : list A :=
  match sorted with
  | [] => [x]
  | y :: rest =>
      if cmp x y <? 0 then x :: y :: rest else y :: insert cmp x rest
  end.

Definition sort (cmp : A -> A -> Z) (l : list A) : list A :=
  fold_left (fun sorted x => insert cmp x sorted) l [].

Definition sortStage (sortConfig : SortConfig) (filteredData : list A)
    : list A :=
  match key sortConfig with
  | Some k => sort (compareFn k (direction sortConfig)) filteredData
  | None => filteredData
  end.

(** The body of the [useMemo] (lines 60-112) on array contents. *)
Definition processedData (data : list A) (sortConfig : SortConfig)
    (filterValues : FilterValues) : list A :=
  sortStage sortConfig (applyFilters data filterValues).

End Engine.

(** ** Exceptions *)

(** What a [throw] carries: an [Error] object with its message, or any
    other value. *)
Inductive Thrown : Type :=
| ErrorObject (ctor message : string)
| OtherValue (v : JsValue).

(** The outcome of running a block: a value, or an exception. *)
Inductive completion (T : Type) : Type :=
| Normal (v : T)
| Throw (e : Thrown).
Arguments Normal {T} v.
Arguments Throw {T} e.

#[export] Instance completion_ret : MRet completion := @Normal.
#[export] Instance completion_bind : MBind completion :=
  fun T U (k : T -> completion U) (c : completion T) =>
    match c with
    | Normal v => k v
    | Throw e => Throw e
    end.

(** [try { body } catch (e) { handler }] *)
Definition try_catch {T : Type} (body : completion T) (handler : Thrown -> T)
    : T :=
  match body with
  | Normal v => v
  | Throw e => handler e
  end.

(** ** Dates of the host

    The [Date] built-ins that [formatDate] calls, after ECMAScript: a
    time value is a count of milliseconds since the epoch or [NaN]
    ([None]); the calendar is the proleptic Gregorian one.  The viewer's
    time zone is the host's: it gives the offset of local time at every
    instant. *)

Module JsDate.

Definition msPerMinute : Z := 60000.
Definition msPerHour : Z := 3600000.
Definition msPerDay : Z := 86400000.

(** The calendar repeats every 400 years, an era of 146097 days that
    starts on a first of March.  Day within the era of the day [d] of
    month [m] in the year [yoe] of the era (years start in March). *)
Definition day_of_era (yoe m d : Z) : Z :=
  let doy := (153 * (if 2 <? m then m - 3 else m + 9) + 2) / 5 + d - 1 in
  yoe * 365 + yoe / 4 - yoe / 100 + doy.

(** Year of the era, month and day of a day within the era. *)
Definition civil_of_era_day (doe : Z) : Z * Z * Z :=
  let yoe := (doe - doe / 1460 + doe / 36524 - doe / 146096) / 365 in
  let doy := doe - (365 * yoe + yoe / 4 - yoe / 100) in
  let mp := (5 * doy + 2) / 153 in
  let d := doy - (153 * mp + 2) / 5 + 1 in
  let m := if mp <? 10 then mp + 3 else mp - 9 in
  (yoe, m, d).

(** Day number (days since 1970-01-01) of a calendar date. *)
Definition days_from_civil (y m d : Z) : Z :=
  let y' := if m <=? 2 then y - 1 else y in
  let era := y' / 400 in
  era * 146097 + day_of_era (y' - era * 400) m d - 719468.

(** Calendar date (year, month 1-12, day) of a day number. *)
Definition civil_from_days (z : Z) : Z * Z * Z :=
  let z' := z + 719468 in
  let era := z' / 146097 in
  let '(yoe, m, d) := civil_of_era_day (z' - era * 146097) in
  (yoe + era * 400 + (if m <=? 2 then 1 else 0), m, d).

Definition is_leap (y : Z) : bool :=
  (y mod 4 =? 0) && (negb (y mod 100 =? 0) || (y mod 400 =? 0)).

Definition days_in_month (y m : Z) : Z :=
  if m =? 2 then (if is_leap y then 29 else 28)
  else if (m =? 4) || (m =? 6) || (m =? 9) || (m =? 11) then 30
  else 31.

Definition valid_date (y m d : Z) : bool :=
  (1 <=? m) && (m <=? 12) && (1 <=? d) && (d <=? days_in_month y m).

Definition digit (c : ascii) : option Z :=
  let n := Z.of_N (N_of_ascii c) in
  if (48 <=? n) && (n <=? 57) then Some (n - 48) else None.

Definition number2 (a b : ascii) : option Z :=
  match digit a, digit b with
  | Some x, Some y => Some (10 * x + y)
  | _, _ => None
  end.

Definition number4 (a b c d : ascii) : option Z :=
  match number2 a b, number2 c d with
  | Some x, Some y => Some (100 * x + y)
  | _, _ => None
  end.

(** [Date.parse] on the date-only form [YYYY-MM-DD] of the ECMAScript
    date-time string format, which is read as midnight UTC.  Outside
    this form ECMAScript leaves the answer to the host (V8 reads other
    forms too, as local time, and rolls a day past the end of its month
    over into the next); such strings have no time value here, and the
    theorems on shown dates speak of a valid date in this form, or of a
    text that no host reads as a date. *)
Definition parse (s : string) : option Z :=
  match s with
  | String y1 (String y2 (String y3 (String y4 (String sep1
    (String m1 (String m2 (String sep2
    (String d1 (String d2 EmptyString))))))))) =>
      if Ascii.eqb sep1 "-" && Ascii.eqb sep2 "-" then
        match number4 y1 y2 y3 y4, number2 m1 m2, number2 d1 d2 with
        | Some y, Some m, Some d =>
            if valid_date y m d then Some (days_from_civil y m d * msPerDay)
            else None
        | _, _, _ => None
        end
      else None
  | _ => None
  end.

(** A time zone, as ECMAScript's LocalTZA: the offset of local time
    from UTC, in milliseconds, at a UTC time value, and the offset the
    host applies to a local time value to go back to UTC (two local
    times an hour apart can be the same instant, and some local times
    belong to no instant). *)
Record TimeZone : Type := {
  offsetAtUTC : Z -> Z;
  offsetAtLocal : Z -> Z
}.

(** A zone that keeps one offset: [minutes] is what [getTimezoneOffset]
    answers there, positive west of Greenwich. *)
Definition fixedZone (minutes : Z) : TimeZone :=
  {| offsetAtUTC := fun _ => - minutes * msPerMinute;
     offsetAtLocal := fun _ => - minutes * msPerMinute |}.

(** A zone that keeps an offset given in seconds east of Greenwich. *)
Definition fixedZoneSeconds (seconds : Z) : TimeZone :=
  {| offsetAtUTC := fun _ => seconds * 1000;
     offsetAtLocal := fun _ => seconds * 1000 |}.

Section Zone.
(** The viewer's zone. *)
Variable zone : TimeZone.

Definition LocalTime (t : Z) : Z := t + offsetAtUTC zone t.
Definition UTC (t : Z) : Z := t - offsetAtLocal zone t.

Definition TimeClip (t : Z) : option Z :=
  if Z.abs t <=? 8640000000000000 then Some t else None.

Definition Day (t : Z) : Z := t / msPerDay.
Definition HourFromTime (t : Z) : Z := (t / msPerHour) mod 24.
Definition MinFromTime (t : Z) : Z := (t / msPerMinute) mod 60.
Definition SecFromTime (t : Z) : Z := (t / 1000) mod 60.
Definition msFromTime (t : Z) : Z := t mod 1000.

Definition MakeTime (hour min sec ms : Z) : Z :=
  hour * msPerHour + min * msPerMinute + sec * 1000 + ms.
Definition MakeDate (day time : Z) : Z := day * msPerDay + time.

(** [date.getMinutes()]; [NaN] for an invalid date. *)
Definition getMinutes (date : option Z) : option Z :=
  match date with
  | Some t => Some (MinFromTime (LocalTime t))
  | None => None
  end.

(** [date.getTimezoneOffset()]: the minutes from local time to UTC,
    a fraction of a minute dropped; [NaN] for an invalid date. *)
Definition getTimezoneOffset (date : option Z) : option Z :=
  match date with
  | Some t => Some (Z.quot (t - LocalTime t) msPerMinute)
  | None => None
  end.

(** [a + b] on numbers that may be [NaN]. *)
Definition number_add (a b : option Z) : option Z :=
  match a, b with
  | Some x, Some y => Some (x + y)
  | _, _ => None
  end.

(** [date.setMinutes(min)]: the new time value of [date]. *)
Definition setMinutes (date : option Z) (min : option Z) : option Z :=
  match date, min with
  | Some t, Some m =>
      let t' := LocalTime t in
      let time :=
        MakeTime (HourFromTime t') m (SecFromTime t') (msFromTime t') in
      TimeClip (UTC (MakeDate (Day t') time))
  | _, _ => None
  end.

Definition pad2 (n : Z) : string :=
  if n <? 10 then ("0" +:+ pretty n)%string else pretty n.

(** [date.toLocaleDateString('en-CA')]: the local calendar day as
    year-month-day, or the text [Invalid Date]. *)
Definition toLocaleDateString_enCA (date : option Z) : string :=
  match date with
  | Some t =>
      let '(y, m, d) := civil_from_days (Day (LocalTime t)) in
      (pretty y +:+ "-" +:+ pad2 m +:+ "-" +:+ pad2 d)%string
  | None => "Invalid Date"
  end.
End Zone.

End JsDate.

(** ** [formatDate] (lines 19-35) *)

(** [string | null | undefined] *)
Inductive MaybeString : Type :=
| MNull
| MUndefined
| MString (s : string).

Section FormatDate.
Variable zone : JsDate.TimeZone.

(** The [try] block: none of the four [Date] calls can throw. *)
Definition formatDate_try (dateString : string) : completion string :=
  date ← Normal (JsDate.parse dateString);
  date ← Normal (JsDate.setMinutes zone date
                   (JsDate.number_add (JsDate.getMinutes zone date)
                      (JsDate.getTimezoneOffset zone date)));
  Normal (JsDate.toLocaleDateString_enCA zone date).

Definition formatDate (dateString : MaybeString) : string :=
  match dateString with
  | MNull | MUndefined => "N/A"
  | MString s =>
      if negb (truthy s) then "N/A"
      else
        try_catch (formatDate_try s)
          (fun e => if truthy s then s else "Invalid Date")
  end.
End FormatDate.

(** ** The normalization boundary ([HomePage], page.tsx lines 19-23) *)

Module Raw.
(** The warehouse client's date wrapper. *)
Record BigQueryDate : Type := { value : string }.

Record BigQueryRecord : Type := {
  load_date : option BigQueryDate;
  source : string;
  record_count : Z;
  load_status : bool
}.
End Raw.

(** [{ ...record, load_date: record.load_date?.value ?? null }] *)
Definition serialize (record : Raw.BigQueryRecord)
    : SerializableBigQueryRecord :=
  {| load_date :=
       match Raw.load_date record with
       | Some d => Some (Raw.value d)
       | None => None
       end;
     source := Raw.source record;
     record_count := Raw.record_count record;
     load_status := Raw.load_status record |}.

Definition serializableData (rawData : list Raw.BigQueryRecord)
    : list SerializableBigQueryRecord :=
  map serialize rawData.

(** A [string | null] field handed to a [string | null | undefined]
    parameter. *)
Definition of_nullable (o : option string) : MaybeString :=
  match o with
  | Some s => MString s
  | None => MNull
  end.

(** ** The component state and its handlers *)

Record State : Type := {
  sortConfig : SortConfig;
  filterValues : FilterValues
}.

(** The two [useState] initialisers (lines 56-57). *)
Definition initialState : State :=
  {| sortConfig := {| key := Some Key.load_date; direction := descending |};
     filterValues := [] |}.

Definition key_is (current : option Key.t) (k : Key.t) : bool :=
  match current with
  | Some k' => Key.eqb k' k
  | None => false
  end.

Definition is_ascending (d : Direction) : bool :=
  match d with
  | ascending => true
  | descending => false
  end.

(** [handleSort] (lines 116-122): the configuration it installs. *)
Definition handleSort (current : SortConfig) (k : Key.t) : SortConfig :=
  let direction0 := ascending in
  let direction1 :=
    if key_is (key current) k && is_ascending (direction current)
    then descending else direction0 in
  {| key := Some k; direction := direction1 |}.

(** [{ ...prev, [key]: value }]: an existing entry keeps its place, a
    new one goes last. *)
Fixpoint set_entry (prev : FilterValues) (k : Key.t) (v : string)
    : FilterValues :=
  match prev with
  | [] => [(k, v)]
  | (k', v') :: rest =>
      if Key.eqb k' k then (k, v) :: rest else (k', v') :: set_entry rest k v
  end.

(** [handleFilterChange] (lines 125-130). *)
Definition handleFilterChange (prev : FilterValues) (k : Key.t) (v : string)
    : FilterValues :=
  set_entry prev k v.

(** [filterValues[key]] *)
Fixpoint filter_entry (fv : FilterValues) (k : Key.t) : option string :=
  match fv with
  | [] => None
  | (k', v) :: rest => if Key.eqb k' k then Some v else filter_entry rest k
  end.

(** What the user can do to the mounted table. *)
Inductive Event : Type :=
| ClickHeader (k : Key.t)
| ChangeFilter (k : Key.t) (v : string).

Definition step (st : State) (ev : Event) : State :=
  match ev with
  | ClickHeader k =>
      {| sortConfig := handleSort (sortConfig st) k;
         filterValues := filterValues st |}
  | ChangeFilter k v =>
      {| sortConfig := sortConfig st;
         filterValues := handleFilterChange (filterValues st) k v |}
  end.

(** The state after a sequence of interactions, from the first render. *)
Definition run (events : list Event) : State :=
  fold_left step events initialState.

(** ** Rendering (lines 133-214) *)

Inductive Arrow : Type := ArrowUp | ArrowDown.

Record HeaderCell : Type := {
  title : string;
  arrow : option Arrow;
  placeholder : string;
  input_value : string
}.

Record Row : Type := {
  row_class : string;
  date_cell : string;
  source_cell : string;
  count_cell : string;
  status_cell : string
}.

Inductive TableBody : Type :=
| DataRows (rows : list Row)
| MessageRow (colSpan : nat) (text : string).

Inductive Rendered : Type :=
| Paragraph (text : string)
| Table (head : list HeaderCell) (body : TableBody).

(** [s.replace('_', ' ')]: only the first underscore is replaced. *)
Fixpoint replace_underscore (s : string) : string :=
  match s with
  | EmptyString => EmptyString
  | String c s' =>
      if Ascii.eqb c "_" then String " " s' else String c (replace_underscore s')
  end.

Definition renderSortArrow (current : SortConfig) (columnKey : Key.t)
    : option Arrow :=
  if negb (key_is (key current) columnKey) then None
  else Some (if is_ascending (direction current) then ArrowUp else ArrowDown).

Definition columnKeys : list Key.t :=
  [Key.load_date; Key.source; Key.record_count; Key.load_status].

(** [[...data]]: spreading [null] or [undefined] is a [TypeError]. *)
Definition spread {T : Type} (data : option (list T)) : completion (list T) :=
  match data with
  | Some l => Normal l
  | None => Throw (ErrorObject "TypeError" "data is not iterable")
  end.

(** [!data || data.length === 0] *)
Definition no_data {T : Type} (data : option (list T)) : bool :=
  match data with
  | None => true
  | Some l => (length l =? 0)%nat
  end.

Section Render.
Variable localeCompare : string -> string -> Z.
Variable toLowerCase : string -> string.
Variable zone : JsDate.TimeZone.
(** [Number.prototype.toLocaleString] of the host. *)
Variable toLocaleString : Z -> string.

Definition renderHeader (st : State) (k : Key.t) : HeaderCell :=
  {| title := replace_underscore (Key.name k);
     arrow := renderSortArrow (sortConfig st) k;
     placeholder :=
       ("Filter " +:+ replace_underscore (Key.name k) +:+ "...")%string;
     input_value :=
       match filter_entry (filterValues st) k with
       | Some v => if truthy v then v else EmptyString
       | None => EmptyString
       end |}.

Definition renderRow (index : nat) (row : SerializableBigQueryRecord) : Row :=
  {| row_class :=
       if (index mod 2 =? 0)%nat then "bg-white"%string
       else "bg-gray-50 hover:bg-gray-100"%string;
     date_cell := formatDate zone (of_nullable (load_date row));
     source_cell := source row;
     count_cell := toLocaleString (record_count row);
     status_cell :=
       if load_status row then "Success"%string else "Failed"%string |}.

(** One render of the component: the memoised derivation runs first,
    then the early return, then the table. *)
Definition BigQueryTable (data : option (list SerializableBigQueryRecord))
    (st : State) : completion Rendered :=
  processed ←
    (filteredData ← spread data;
     Normal (processedData field localeCompare toLowerCase filteredData
               (sortConfig st) (filterValues st)));
  if no_data data then
    Normal (Paragraph "No initial data found to display or filter.")
  else
    Normal
      (Table (map (renderHeader st) columnKeys)
         (if (0 <? length processed)%nat
          then DataRows (imap renderRow processed)
          else MessageRow (length columnKeys)
                 "No records match the current filters.")).
End Render.

(** The en-US rendering of an integer by [toLocaleString]: digits in
    groups of three. *)
Fixpoint group3 (rev_digits : list ascii) : list ascii :=
  match rev_digits with
  | a :: b :: c :: ((_ :: _) as rest) => a :: b :: c :: ","%char :: group3 rest
  | _ => rev_digits
  end.

Definition toLocaleString_enUS (n : Z) : string :=
  let digits := list_ascii_of_string (pretty (Z.abs n)) in
  let grouped := string_of_list_ascii (rev (group3 (rev digits))) in
  if n <? 0 then ("-" +:+ grouped)%string else grouped.

(** ** The upstream fetch ([fetchBigQueryData], bigquery.ts) *)

Record QueryOptions : Type := {
  query : string;
  location : string
}.

(** What the function does to the outside world, in order. *)
Inductive Effect : Type :=
| RunQuery (options : QueryOptions)
| ConsoleError (label : string) (error : Thrown).

(** [!x] for an environment variable: unset, or set to the empty string. *)
Definition missing (x : option string) : bool :=
  match x with
  | Some s => negb (truthy s)
  | None => true
  end.

Definition query_text (projectId datasetId tableId : string) : string :=
  ("
        SELECT
            load_date,
            source,
            record_count,
            load_status
        FROM
            `" +:+ projectId +:+ "." +:+ datasetId +:+ "." +:+ tableId +:+ "`
        ORDER BY
            load_date DESC
            LIMIT 100; -- Example: Limit results for performance
    ")%string.

Section Fetch.
(** [process.env] *)
Variable env : gmap string string.
(** [bigqueryClient.query]: the rows, or the rejection of the promise. *)
Variable client_query : QueryOptions -> completion (list Raw.BigQueryRecord).

Definition fetchBigQueryData
    : list Effect * completion (list Raw.BigQueryRecord) :=
  let datasetId := env !! "BIGQUERY_DATASET"%string in
  let tableId := env !! "BIGQUERY_TABLE"%string in
  let projectId := env !! "GCP_PROJECT_ID"%string in
  let location := env !! "BIGQUERY_LOCATION"%string in
  if missing datasetId || missing tableId || missing projectId
     || missing location
  then
    ([], Throw (ErrorObject "Error"
       "Missing required environment variables for BigQuery connection (GCP_PROJECT_ID, BIGQUERY_DATASET, BIGQUERY_TABLE, BIGQUERY_LOCATION)"))
  else
    let options :=
      {| query := query_text (default EmptyString projectId)
                    (default EmptyString datasetId) (default EmptyString tableId);
         location := default EmptyString location |} in
    match client_query options with
    | Normal rows => ([RunQuery options], Normal rows)
    | Throw error =>
        let errorMessage := "Failed to fetch data from BigQuery."%string in
        let errorMessage :=
          match error with
          | ErrorObject _ message => (errorMessage +:+ " " +:+ message)%string
          | OtherValue v => (errorMessage +:+ " " +:+ js_String v)%string
          end in
        ([RunQuery options;
          ConsoleError "ERROR fetching data from BigQuery:" error],
         Throw (ErrorObject "Error" errorMessage))
    end.
End Fetch.

(** ** The page ([HomePage], page.tsx lines 14-32) *)

Section Page.
Variable env : gmap string string.
Variable client_query : QueryOptions -> completion (list Raw.BigQueryRecord).
Variable localeCompare : string -> string -> Z.
Variable toLowerCase : string -> string.
Variable zone : JsDate.TimeZone.
Variable toLocaleString : Z -> string.

(** Fetch, normalize, and the first render of the table. *)
Definition HomePage : list Effect * completion Rendered :=
  let '(effects, fetched) := fetchBigQueryData env client_query in
  (effects,
   rawData ← fetched;
   BigQueryTable localeCompare toLowerCase zone toLocaleString
     (Some (serializableData rawData)) initialState).
End Page.

(** ** The derivation on a store

    Arrays and record objects are reached through references, so that
    what the derivation writes can be told from what it only reads. *)

(** References are positive numbers. *)
Abbreviation loc := positive (only parsing).

Record Store : Type := {
  arrays : gmap positive (list positive);
  objects : gmap positive SerializableBigQueryRecord
}.

(** [item[k]] through a reference. *)
Definition deref (σ : Store) (item : loc) (k : Key.t) : JsValue :=
  match objects σ !! item with
  | Some o => field o k
  | None => VUndefined
  end.

(** A new array object. *)
Definition alloc_array (σ : Store) (elems : list loc) : loc * Store :=
  let l := fresh (dom (arrays σ)) in
  (l, {| arrays := <[l := elems]> (arrays σ); objects := objects σ |}).

(** [[...arr]] *)
Definition spread_st (arr : loc) (σ : Store) : option (loc * Store) :=
  elems ← arrays σ !! arr;
  Some (alloc_array σ elems).

(** [arr.filter(callback)]: the result is a new array. *)
Definition filter_st (arr : loc) (callback : Store -> loc -> bool) (σ : Store)
    : option (loc * Store) :=
  elems ← arrays σ !! arr;
  Some (alloc_array σ (List.filter (callback σ) elems)).

(** [arr.sort(cmp)]: sorts [arr] in place. *)
Definition sort_st (arr : loc) (cmp : Store -> loc -> loc -> Z) (σ : Store)
    : option Store :=
  elems ← arrays σ !! arr;
  Some {| arrays := <[arr := sort (cmp σ) elems]> (arrays σ);
          objects := objects σ |}.

Section Derivation.
Variable localeCompare : string -> string -> Z.
Variable toLowerCase : string -> string.

(** The [forEach] over the filter entries, reassigning [filteredData]. *)
Fixpoint applyFilters_st (filteredData : loc) (entries : FilterValues)
    (σ : Store) : option (loc * Store) :=
  match entries with
  | [] => Some (filteredData, σ)
  | (k, v) :: rest =>
      if truthy v then
        '(filteredData', σ') ←
          filter_st filteredData
            (fun σ0 => filterItem (deref σ0) toLowerCase k (toLowerCase v)) σ;
        applyFilters_st filteredData' rest σ'
      else applyFilters_st filteredData rest σ
  end.

(** The body of the [useMemo] (lines 60-112) with [data] a reference:
    the array it returns and the store it leaves. *)
Definition processedData_st (data : loc) (current : SortConfig)
    (entries : FilterValues) (σ : Store) : option (loc * Store) :=
  '(filteredData, σ1) ← spread_st data σ;
  '(filteredData, σ2) ← applyFilters_st filteredData entries σ1;
  match key current with
  | Some k =>
      σ3 ← sort_st filteredData
             (fun σ0 => compareFn (deref σ0) localeCompare k
                          (direction current)) σ2;
      Some (filteredData, σ3)
  | None => Some (filteredData, σ2)
  end.
End Derivation.

(** ** The specification's vocabulary *)

(** The text a column value is matched as: booleans as true/false,
    numbers in decimal; a null or undefined value has none. *)
Definition stringified (v : JsValue) : option string :=
  match v with
  | VNull | VUndefined => None
  | VString s => Some s
  | VNumber n => Some (pretty n)
  | VBoolean true => Some "true"%string
  | VBoolean false => Some "false"%string
  end.

(** A value matches a filter text when its text contains the filter
    text, letter case aside. *)
Definition column_matches (toLowerCase : string -> string) (v : JsValue)
    (text : string) : Prop :=
  exists s, stringified v = Some s /\
            is_substring (toLowerCase text) (toLowerCase s).

(** A record passes a filter mapping when it matches every entry that
    is a non-empty string. *)
Definition satisfies {A : Type} (get : A -> Key.t -> JsValue)
    (toLowerCase : string -> string) (fv : FilterValues) (item : A) : Prop :=
  forall k text, In (k, text) fv -> text <> EmptyString ->
                 column_matches toLowerCase (get item k) text.

(** The ascending order on values: null and undefined below everything,
    numbers by size, false below true, the rest by the host's string
    order. *)
Definition value_le (localeCompare : string -> string -> Z) (a b : JsValue)
    : Prop :=
  match a, b with
  | (VNull | VUndefined), _ => True
  | _, (VNull | VUndefined) => False
  | VNumber x, VNumber y => x <= y
  | VBoolean x, VBoolean y => x = true -> y = true
  | _, _ => localeCompare (js_String a) (js_String b) <= 0
  end.

(** Two neighbours are in the order a direction asks for. *)
Definition in_order {A : Type} (get : A -> Key.t -> JsValue)
    (localeCompare : string -> string -> Z) (k : Key.t) (d : Direction)
    (a b : A) : Prop :=
  match d with
  | ascending => value_le localeCompare (get a k) (get b k)
  | descending => value_le localeCompare (get b k) (get a k)
  end.

(** The list is a block of elements with a null key followed by a block
    of elements with a non-null key, or the other way round. *)
Definition nulls_then_values {A : Type} (get : A -> Key.t -> JsValue)
    (k : Key.t) (l : list A) : Prop :=
  exists nulls rest, l = nulls ++ rest /\
    Forall (fun x => is_nullish (get x k) = true) nulls /\
    Forall (fun x => is_nullish (get x k) = false) rest.

Definition values_then_nulls {A : Type} (get : A -> Key.t -> JsValue)
    (k : Key.t) (l : list A) : Prop :=
  exists rest nulls, l = rest ++ nulls /\
    Forall (fun x => is_nullish (get x k) = false) rest /\
    Forall (fun x => is_nullish (get x k) = true) nulls.

(** The message an upstream failure carries. *)
Definition failure_message (e : Thrown) : string :=
  match e with
  | ErrorObject _ message => message
  | OtherValue v => js_String v
  end.

(** A string order by character codes, an instance of [localeCompare]
    to run the engine on. *)
Definition ordinalCompare (s t : string) : Z :=
  match String.compare s t with
  | Eq => 0
  | Lt => -1
  | Gt => 1
  end.

(** Whether a record passes a filter mapping, decided entry by entry. *)
Definition passes {A : Type} (get : A -> Key.t -> JsValue)
    (toLowerCase : string -> string) (fv : FilterValues) (item : A) : bool :=
  forallb (fun entry : Key.t * string =>
             negb (truthy (snd entry))
             || filterItem get toLowerCase (fst entry) (toLowerCase (snd entry)) item) fv.

(** The two cases in which the comparator does not compare as text. *)
Definition typed_pair (a b : JsValue) : bool :=
  match a, b with
  | VNumber _, VNumber _ | VBoolean _, VBoolean _ => true
  | _, _ => false
  end.

(** The two rows of the specification's scenarios. *)
Definition rowA : SerializableBigQueryRecord :=
  {| load_date := Some "2024-01-01"%string; source := "A";
     record_count := 10; load_status := true |}.

Definition rowB : SerializableBigQueryRecord :=
  {| load_date := None; source := "B";
     record_count := 5; load_status := false |}.

(** An environment with the four settings, and a client whose query
    is rejected. *)
Definition sample_env : gmap string string :=
  <["GCP_PROJECT_ID"%string := "proj"%string]>
    (<["BIGQUERY_DATASET"%string := "ds"%string]>
       (<["BIGQUERY_TABLE"%string := "loads"%string]>
          (<["BIGQUERY_LOCATION"%string := "EU"%string]> ∅))).

Definition failing_client (options : QueryOptions)
    : completion (list Raw.BigQueryRecord) :=
  Throw (ErrorObject "Error" "Not found: Table loads").

(** What a computation leaves alone: every record object, and every
    array that existed before it ran. *)
Definition unchanged (σ σ' : Store) : Prop :=
  objects σ' = objects σ
  /\ forall l elems, arrays σ !! l = Some elems -> arrays σ' !! l = Some elems.

(** A store with the two scenario rows and the array holding them. *)
Definition sample_store : Store :=
  {| arrays := {[ 1%positive := [10%positive; 11%positive] ]};
     objects := <[10%positive := rowB]> {[ 11%positive := rowA ]} |}.

(** The text [YYYY-MM-DD] of a calendar date. *)
Definition iso_date (y m d : Z) : string :=
  (pretty y +:+ "-" +:+ JsDate.pad2 m +:+ "-" +:+ JsDate.pad2 d)%string.

(** Checkers run over finite ranges: a predicate on an interval, and
    the digits of a year and of a padded number. *)
Fixpoint check_range (P : Z -> bool) (lo : Z) (n : nat) : bool :=
  match n with
  | O => true
  | S n' => P lo && check_range P (lo + 1) n'
  end.

Definition year_text_ok (y : Z) : bool :=
  match pretty y with
  | String a (String b (String c (String e EmptyString))) =>
      match JsDate.number4 a b c e with
      | Some v => v =? y
      | None => false
      end
  | _ => false
  end.

Definition pad2_text_ok (n : Z) : bool :=
  match JsDate.pad2 n with
  | String a (String b EmptyString) =>
      match JsDate.number2 a b with
      | Some v => v =? n
      | None => false
      end
  | _ => false
  end.

(** The two kinds of interaction, and the queries among the effects. *)
Definition is_click (ev : Event) : bool :=
  match ev with
  | ClickHeader _ => true
  | ChangeFilter _ _ => false
  end.

Definition is_query (e : Effect) : bool :=
  match e with
  | RunQuery _ => true
  | ConsoleError _ _ => false
  end.

(** ** Letter case *)

(** A string of ASCII characters. *)
Fixpoint is_ascii (s : string) : bool :=
  match s with
  | EmptyString => true
  | String c s' => (N_of_ascii c <? 128)%N && is_ascii s'
  end.

(** What ECMAScript fixes of the host's [toLowerCase] on ASCII text:
    the letters A-Z are folded and nothing else changes. *)
Definition folds_ascii (toLowerCase : string -> string) : Prop :=
  forall s, is_ascii s = true -> toLowerCase s = asciiLowerCase s.

(** The capital and the small letters, in step. *)
Definition letter_pairs : list (ascii * ascii) :=
  combine (list_ascii_of_string "ABCDEFGHIJKLMNOPQRSTUVWXYZ")
          (list_ascii_of_string "abcdefghijklmnopqrstuvwxyz").

(** The same character, or a capital letter and its small letter. *)
Definition same_letter (c c' : ascii) : Prop :=
  c = c' \/ In (c, c') letter_pairs \/ In (c', c) letter_pairs.

(** Two texts that differ in letter case at most. *)
Inductive same_ignoring_case : string -> string -> Prop :=
| same_empty : same_ignoring_case EmptyString EmptyString
| same_String c c' s s' :
    same_letter c c' -> same_ignoring_case s s' ->
    same_ignoring_case (String c s) (String c' s').

(** [t] occurs in [s], letter case ignored. *)
Definition contains_ignoring_case (s t : string) : Prop :=
  exists pre mid post,
    s = (pre +:+ mid +:+ post)%string /\ same_ignoring_case mid t.

(** The Greek capital sigma and its two small forms, as UTF-8 bytes. *)
Definition capital_sigma : string := String "206" (String "163" EmptyString).
Definition small_sigma : string := String "207" (String "131" EmptyString).
Definition final_sigma : string := String "207" (String "130" EmptyString).

Definition is_ascii_letter (c : ascii) : bool :=
  let n := N_of_ascii c in
  ((65 <=? n) && (n <=? 90) || (97 <=? n) && (n <=? 122))%N.

(** The ASCII characters that Unicode lets stand between letters of a
    word: apostrophe, full stop, colon, circumflex, grave accent. *)
Definition case_ignorable (c : ascii) : bool :=
  let n := N_of_ascii c in
  ((n =? 39) || (n =? 46) || (n =? 58) || (n =? 94) || (n =? 96))%N.

Definition starts_with_sigma (s : string) : bool :=
  String.prefix capital_sigma s.

(** Whether a letter comes next, case-ignorable characters skipped. *)
Fixpoint letter_follows (s : string) : bool :=
  match s with
  | EmptyString => false
  | String c s' =>
      if case_ignorable c then letter_follows s'
      else is_ascii_letter c || starts_with_sigma s
  end.

(** [toLowerCase] on text made of ASCII characters and capital sigmas:
    ASCII letters are folded, and a capital sigma becomes the final
    small sigma when a letter comes before it and none after it
    (Unicode's Final_Sigma rule), the small sigma otherwise.
    [after_letter] tells whether a letter comes before. *)
Fixpoint sigmaLowerFrom (after_letter : bool) (s : string) : string :=
  match s with
  | EmptyString => EmptyString
  | String c s' =>
      match s' with
      | String c2 rest =>
          if Ascii.eqb c "206" && Ascii.eqb c2 "163" then
            ((if after_letter && negb (letter_follows rest)
              then final_sigma else small_sigma)
             +:+ sigmaLowerFrom true rest)%string
          else
            String (lower_ascii c)
              (sigmaLowerFrom
                 (if case_ignorable c then after_letter else is_ascii_letter c)
                 s')
      | EmptyString => String (lower_ascii c) EmptyString
      end
  end.

Definition sigmaLowerCase (s : string) : string := sigmaLowerFrom false s.

(** A record whose source is the letter A followed by a capital sigma. *)
Definition rowSigma : SerializableBigQueryRecord :=
  {| load_date := None; source := ("A" +:+ capital_sigma)%string;
     record_count := 1; load_status := true |}.

(** ** Strings *)

Lemma Key_eqb_eq a b : Key.eqb a b = true <-> a = b.
Proof. destruct a, b; simpl; split; congruence. Qed.

Lemma Key_eqb_refl a : Key.eqb a a = true.
Proof. now apply Key_eqb_eq. Qed.

Lemma truthy_nonempty s : truthy s = true <-> s <> EmptyString.
Proof. destruct s; simpl; split; congruence. Qed.

Lemma prefix_app t : forall s,
  String.prefix t s = true <-> exists post, s = (t +:+ post)%string.
Proof.
  induction t as [|c t IH]; intros [|c' s]; simpl.
  - split; [intros _; now exists EmptyString | reflexivity].
  - split; [intros _; now exists (String c' s) | reflexivity].
  - split; [discriminate | intros [post H]; discriminate].
  - destruct (ascii_dec c c') as [->|Hne].
    + rewrite IH. split; intros [post H]; exists post.
      * now rewrite H.
      * now injection H.
    + split; [discriminate | intros [post H]; injection H; congruence].
Qed.

Lemma includes_empty t : includes EmptyString t = String.prefix t EmptyString || false.
Proof. reflexivity. Qed.

Lemma includes_String c s t :
  includes (String c s) t = String.prefix t (String c s) || includes s t.
Proof. reflexivity. Qed.

Lemma includes_substring s : forall t,
  includes s t = true <-> is_substring t s.
Proof.
  unfold is_substring.
  induction s as [|c s IH]; intros t.
  - rewrite includes_empty, orb_false_r, prefix_app. split.
    + intros [post H]. now exists EmptyString, post.
    + intros (pre & post & H). destruct pre; simpl in H.
      * now exists post.
      * discriminate.
  - rewrite includes_String, orb_true_iff, prefix_app, IH. split.
    + intros [[post H] | (pre & post & H)].
      * now exists EmptyString, post.
      * exists (String c pre), post. simpl. now rewrite H.
    + intros (pre & post & H). destruct pre as [|c' pre]; simpl in H.
      * left. now exists post.
      * right. exists pre, post. now injection H.
Qed.

(** ** Letter case *)

Lemma asciiLowerCase_app s t :
  asciiLowerCase (s +:+ t) = (asciiLowerCase s +:+ asciiLowerCase t)%string.
Proof.
  induction s as [|c s IH]; [reflexivity|].
  change (String (lower_ascii c) (asciiLowerCase (s +:+ t))
          = String (lower_ascii c) (asciiLowerCase s +:+ asciiLowerCase t)%string).
  now rewrite IH.
Qed.

(** A lower-cased text that is two texts one after the other comes
    from two texts one after the other. *)
Lemma asciiLowerCase_split s : forall a b,
  asciiLowerCase s = (a +:+ b)%string ->
  exists s1 s2, s = (s1 +:+ s2)%string
                /\ asciiLowerCase s1 = a /\ asciiLowerCase s2 = b.
Proof.
  induction s as [|c s IH]; intros [|x a] b H.
  - exists EmptyString, EmptyString. destruct b; [auto | discriminate].
  - discriminate.
  - exists EmptyString, (String c s). auto.
  - injection H as Hc Hs. destruct (IH _ _ Hs) as (s1 & s2 & -> & <- & <-).
    exists (String c s1), s2. repeat split. cbn [asciiLowerCase]. now rewrite Hc.
Qed.

Lemma letter_pair_lower c c' :
  In (c, c') letter_pairs -> lower_ascii c = c' /\ lower_ascii c' = c'.
Proof.
  unfold letter_pairs. cbn [list_ascii_of_string combine In].
  intros H. repeat (destruct H as [[= <- <-]|H]; [split; reflexivity|]).
  contradiction.
Qed.

Lemma lower_ascii_pair c :
  lower_ascii c = c \/ In (c, lower_ascii c) letter_pairs.
Proof.
  destruct c as [[] [] [] [] [] [] [] []];
    first [left; reflexivity
          | right; vm_compute; repeat (first [left; reflexivity | right])].
Qed.

Lemma lower_ascii_idem c : lower_ascii (lower_ascii c) = lower_ascii c.
Proof.
  destruct (lower_ascii_pair c) as [E|H]; [now rewrite E|].
  exact (proj2 (letter_pair_lower _ _ H)).
Qed.

Lemma letter_pair_inj a b l :
  In (a, l) letter_pairs -> In (b, l) letter_pairs -> a = b.
Proof.
  unfold letter_pairs. cbn [list_ascii_of_string combine In].
  intros Ha Hb.
  repeat (destruct Ha as [[= <- <-]|Ha];
          [repeat (destruct Hb as [Hb|Hb]; [inversion Hb; reflexivity|]);
           contradiction|]).
  contradiction.
Qed.

Lemma same_letter_lower c c' :
  lower_ascii c = lower_ascii c' <-> same_letter c c'.
Proof.
  unfold same_letter. split.
  - intros E.
    destruct (lower_ascii_pair c) as [Hc|Hc], (lower_ascii_pair c') as [Hc'|Hc'].
    + left. congruence.
    + right. right. rewrite <- E, Hc in Hc'. exact Hc'.
    + right. left. rewrite E, Hc' in Hc. exact Hc.
    + left. rewrite <- E in Hc'. exact (letter_pair_inj _ _ _ Hc Hc').
  - intros [->|[H|H]]; [reflexivity| |].
    + destruct (letter_pair_lower _ _ H) as [-> ->]. reflexivity.
    + destruct (letter_pair_lower _ _ H) as [-> ->]. reflexivity.
Qed.

Lemma same_ignoring_case_lower a : forall b,
  asciiLowerCase a = asciiLowerCase b <-> same_ignoring_case a b.
Proof.
  induction a as [|c a IH]; intros [|c' b]; cbn [asciiLowerCase].
  - split; [constructor | reflexivity].
  - split; [discriminate | inversion 1].
  - split; [discriminate | inversion 1].
  - split.
    + intros [= Hc Ha]. constructor; [now apply same_letter_lower | now apply IH].
    + inversion 1; subst. f_equal; [now apply same_letter_lower | now apply IH].
Qed.

Lemma contains_ignoring_case_lower s t :
  is_substring (asciiLowerCase t) (asciiLowerCase s)
  <-> contains_ignoring_case s t.
Proof.
  unfold is_substring, contains_ignoring_case. split.
  - intros (pre & post & H).
    destruct (asciiLowerCase_split _ _ _ H) as (s1 & s23 & -> & <- & H23).
    destruct (asciiLowerCase_split _ _ _ H23) as (s2 & s3 & -> & H2 & <-).
    exists s1, s2, s3. split; [reflexivity|]. now apply same_ignoring_case_lower.
  - intros (pre & mid & post & -> & H).
    apply same_ignoring_case_lower in H.
    exists (asciiLowerCase pre), (asciiLowerCase post).
    now rewrite !asciiLowerCase_app, H.
Qed.

Lemma is_ascii_app s t :
  is_ascii (s +:+ t) = is_ascii s && is_ascii t.
Proof.
  induction s as [|c s IH]; [reflexivity|].
  change (((N_of_ascii c <? 128)%N && is_ascii (s +:+ t))
          = (N_of_ascii c <? 128)%N && is_ascii s && is_ascii t).
  now rewrite IH, andb_assoc.
Qed.

Lemma folds_ascii_asciiLowerCase : folds_ascii asciiLowerCase.
Proof. intros s _. reflexivity. Qed.

Lemma sigmaLowerFrom_String after_letter c c2 rest :
  sigmaLowerFrom after_letter (String c (String c2 rest))
  = if Ascii.eqb c "206" && Ascii.eqb c2 "163"
    then ((if after_letter && negb (letter_follows rest)
           then final_sigma else small_sigma)
          +:+ sigmaLowerFrom true rest)%string
    else String (lower_ascii c)
           (sigmaLowerFrom
              (if case_ignorable c then after_letter else is_ascii_letter c)
              (String c2 rest)).
Proof. reflexivity. Qed.

Lemma sigmaLowerFrom_ascii s : forall after_letter,
  is_ascii s = true -> sigmaLowerFrom after_letter s = asciiLowerCase s.
Proof.
  induction s as [|c s IH]; intros after_letter H; [reflexivity|].
  cbn [is_ascii] in H. apply andb_true_iff in H. destruct H as [Hc Hs].
  destruct s as [|c2 rest]; [reflexivity|].
  rewrite sigmaLowerFrom_String.
  destruct (Ascii.eqb c "206") eqn:E.
  - apply Ascii.eqb_eq in E. subst c. discriminate Hc.
  - cbn [andb]. rewrite (IH _ Hs). reflexivity.
Qed.

(** The lower-casing with the sigma rule folds ASCII text as [folds_ascii]
    asks. *)
Lemma folds_ascii_sigmaLowerCase : folds_ascii sigmaLowerCase.
Proof. intros s H. now apply sigmaLowerFrom_ascii. Qed.

(** ** The filter stage *)

Section FilterStage.
Context {A : Type} (get : A -> Key.t -> JsValue).
Variable toLowerCase : string -> string.

Lemma filterItem_matches k text item :
  filterItem get toLowerCase k (toLowerCase text) item = true
  <-> column_matches toLowerCase (get item k) text.
Proof.
  unfold filterItem, column_matches.
  destruct (get item k) as [| |s|n|[|]]; cbn [is_nullish stringified];
    try (split; [discriminate | intros (s' & H & _); discriminate]);
    rewrite includes_substring; split;
    try (intros H; eexists; split; [reflexivity | exact H]);
    intros (s' & [= <-] & H); exact H.
Qed.

Lemma filter_filter (f g : A -> bool) l :
  List.filter f (List.filter g l) = List.filter (fun x => g x && f x) l.
Proof.
  induction l as [|x l IH]; simpl; [reflexivity|].
  destruct (g x); simpl; [destruct (f x)|]; now rewrite IH.
Qed.

Lemma applyFilter_filter data entry :
  applyFilter get toLowerCase data entry =
  List.filter (fun item => negb (truthy (snd entry))
                      || filterItem get toLowerCase (fst entry)
                           (toLowerCase (snd entry)) item) data.
Proof.
  destruct entry as [k v]; simpl. destruct (truthy v); simpl.
  - reflexivity.
  - symmetry. apply forallb_filter_id. now apply forallb_forall.
Qed.

Lemma applyFilters_filter fv : forall data,
  applyFilters get toLowerCase data fv
  = List.filter (passes get toLowerCase fv) data.
Proof.
  unfold applyFilters.
  induction fv as [|entry fv IH]; intros data; simpl.
  - symmetry. apply forallb_filter_id. now apply forallb_forall.
  - rewrite IH, applyFilter_filter, filter_filter. reflexivity.
Qed.

Lemma passes_satisfies fv item :
  passes get toLowerCase fv item = true <-> satisfies get toLowerCase fv item.
Proof.
  unfold passes, satisfies. rewrite forallb_forall. split.
  - intros H k text Hin Hne. specialize (H _ Hin). simpl in H.
    apply truthy_nonempty in Hne. rewrite Hne in H. simpl in H.
    now apply filterItem_matches.
  - intros H [k text] Hin. simpl.
    destruct (truthy text) eqn:Ht; simpl; [|reflexivity].
    apply filterItem_matches, H; [exact Hin | now apply truthy_nonempty].
Qed.

Lemma nullish_never_matches v text :
  is_nullish v = true -> ~ column_matches toLowerCase v text.
Proof. destruct v; try discriminate; intros _ (s & H & _); discriminate. Qed.

(** On ASCII text, matching is containment with letter case ignored. *)
Lemma column_matches_ascii v s text :
  folds_ascii toLowerCase ->
  stringified v = Some s -> is_ascii s = true -> is_ascii text = true ->
  column_matches toLowerCase v text <-> contains_ignoring_case s text.
Proof.
  intros Hfold Hv Hs Ht. unfold column_matches. rewrite Hv.
  rewrite <- contains_ignoring_case_lower, <- (Hfold s Hs), <- (Hfold text Ht).
  split.
  - intros (s' & [= <-] & H). exact H.
  - intros H. exists s. auto.
Qed.

(** C1, amended. The filter stage keeps, in their order, exactly the
    input records that match every filter entry holding a non-empty
    string: the value in that column, as text (booleans as
    true/false, numbers in decimal) and lower-cased by the host,
    contains the lower-cased filter text.  Where the host folds ASCII
    as ECMAScript says, this is, for ASCII texts, containing the
    filter text with letter case ignored.  Entries that are absent or
    empty constrain nothing, a null or undefined value in a filtered
    column never matches, and the active filters are conjoined. *)
Theorem C1_filter_stage_exact (data : list A) (fv : FilterValues) :
  applyFilters get toLowerCase data fv
  = List.filter (passes get toLowerCase fv) data
  /\ (forall item, passes get toLowerCase fv item = true
                   <-> satisfies get toLowerCase fv item)
  /\ (forall item, In item (applyFilters get toLowerCase data fv)
                   <-> In item data /\ satisfies get toLowerCase fv item)
  /\ (forall item k text, In (k, text) fv -> text <> EmptyString ->
        is_nullish (get item k) = true ->
        ~ In item (applyFilters get toLowerCase data fv))
  /\ (forall b, stringified (VBoolean b)
                = Some (if b then "true" else "false")%string)
  /\ (forall n, stringified (VNumber n) = Some (pretty n))
  /\ (folds_ascii toLowerCase ->
      forall v s text,
        stringified v = Some s -> is_ascii s = true -> is_ascii text = true ->
        (column_matches toLowerCase v text <-> contains_ignoring_case s text)).
Proof.
  split; [apply applyFilters_filter|].
  split; [apply passes_satisfies|].
  split; [|split; [|split; [intros []; reflexivity
                           |split; [reflexivity|]]]].
  - intros item. rewrite applyFilters_filter, filter_In, passes_satisfies.
    reflexivity.
  - intros item k text Hin Hne Hnull.
    rewrite applyFilters_filter, filter_In, passes_satisfies.
    intros [_ Hsat]. exact (nullish_never_matches _ _ Hnull (Hsat _ _ Hin Hne)).
  - intros Hfold v s text. now apply column_matches_ascii.
Qed.
End FilterStage.

(** C1, counterexample. The record whose source is A followed by a
    capital sigma holds the filter text, a capital sigma, as it is;
    a host that folds ASCII as ECMAScript says and follows Unicode's
    rule for the sigma lower-cases the source to a and a final small
    sigma and the filter text to a small sigma, and the record is
    dropped. *)
Lemma C1_final_sigma_counterexample :
  folds_ascii sigmaLowerCase
  /\ contains_ignoring_case (source rowSigma) capital_sigma
  /\ is_substring capital_sigma (source rowSigma)
  /\ sigmaLowerCase (source rowSigma) = ("a" +:+ final_sigma)%string
  /\ sigmaLowerCase capital_sigma = small_sigma
  /\ applyFilters field sigmaLowerCase [rowSigma]
       [(Key.source, capital_sigma)] = [].
Proof.
  split; [exact folds_ascii_sigmaLowerCase|].
  split; [|split; [|repeat split]].
  - exists "A"%string, capital_sigma, EmptyString. split; [reflexivity|].
    repeat constructor.
  - exists "A"%string, EmptyString. reflexivity.
Qed.

Lemma C1_witness :
  column_matches asciiLowerCase (field rowA Key.source) "a"
  <-> contains_ignoring_case "A" "a".
Proof.
  apply (proj2 (proj2 (proj2 (proj2 (proj2 (proj2
           (C1_filter_stage_exact field asciiLowerCase [rowA; rowB]
              [(Key.source, "a"%string)])))))) folds_ascii_asciiLowerCase);
    reflexivity.
Defined.


(** ** The sort stage *)

Section Insertion.
Context {A : Type} (cmp : A -> A -> Z) (R : A -> A -> Prop).
Hypothesis cmp_lt : forall x y, cmp x y < 0 -> R x y.
Hypothesis cmp_ge : forall x y, 0 <= cmp x y -> R y x.

Lemma insert_Permutation x l : Permutation (insert cmp x l) (x :: l).
Proof.
  induction l as [|y l IH]; simpl; [reflexivity|].
  destruct (cmp x y <? 0); [reflexivity|].
  rewrite IH. apply perm_swap.
Qed.

Lemma sort_Permutation l : Permutation (sort cmp l) l.
Proof.
  unfold sort. change l with ([] ++ l) at 2. generalize (@nil A) as acc.
  induction l as [|x l IH]; intros acc; simpl.
  - now rewrite app_nil_r.
  - rewrite IH, insert_Permutation. simpl. apply Permutation_middle.
Qed.

Lemma insert_HdRel y x l :
  R y x -> HdRel R y l -> HdRel R y (insert cmp x l).
Proof.
  intros Hyx Hhd. destruct l as [|z l]; simpl.
  - now constructor.
  - destruct (cmp x z <? 0); constructor; [exact Hyx|].
    now inversion Hhd.
Qed.

Lemma insert_Sorted x l : Sorted R l -> Sorted R (insert cmp x l).
Proof.
  induction 1 as [|y l Hs IH Hhd]; simpl.
  - repeat constructor.
  - destruct (cmp x y <? 0) eqn:E.
    + apply Z.ltb_lt in E. repeat constructor; auto.
    + apply Z.ltb_ge in E. constructor; [exact IH|].
      apply insert_HdRel; auto.
Qed.

Lemma sort_Sorted l : Sorted R (sort cmp l).
Proof.
  unfold sort. assert (H : Sorted R (@nil A)) by constructor.
  revert H. generalize (@nil A) as acc.
  induction l as [|x l IH]; intros acc H; simpl; [exact H|].
  apply IH, insert_Sorted, H.
Qed.
End Insertion.

Section Blocks.
Context {A : Type} (R : A -> A -> Prop) (P Q : A -> Prop).
Hypothesis P_or_Q : forall x, P x \/ Q x.
Hypothesis Q_closed : forall x y, R x y -> Q x -> Q y.

Lemma Sorted_closed x l : Sorted R (x :: l) -> Q x -> Forall Q (x :: l).
Proof.
  revert x. induction l as [|y l IH]; intros x Hs Hx.
  - now repeat constructor.
  - constructor; [exact Hx|]. inversion Hs as [|? ? Hs' Hhd]; subst.
    inversion Hhd; subst. apply IH; eauto.
Qed.

Lemma Sorted_blocks l :
  Sorted R l -> exists l1 l2, l = l1 ++ l2 /\ Forall P l1 /\ Forall Q l2.
Proof.
  induction l as [|x l IH]; intros Hs.
  - exists [], []. repeat constructor.
  - destruct (P_or_Q x) as [Hx|Hx].
    + inversion Hs as [|? ? Hs' _]; subst.
      destruct (IH Hs') as (l1 & l2 & -> & H1 & H2).
      exists (x :: l1), l2. repeat split; auto.
    + exists [], (x :: l). repeat split; auto using Sorted_closed.
Qed.
End Blocks.

Section SortStage.
Context {A : Type} (get : A -> Key.t -> JsValue).
Variable localeCompare : string -> string -> Z.

Lemma compareFn_null_left k a b :
  is_nullish (get a k) = true -> compareFn get localeCompare k ascending a b = -1.
Proof. unfold compareFn. now intros ->. Qed.

Lemma compareFn_null_right k a b :
  is_nullish (get a k) = false -> is_nullish (get b k) = true ->
  compareFn get localeCompare k ascending a b = 1.
Proof. unfold compareFn. now intros -> ->. Qed.

Lemma compareFn_numbers k a b x y :
  get a k = VNumber x -> get b k = VNumber y ->
  compareFn get localeCompare k ascending a b = x - y.
Proof. unfold compareFn. now intros -> ->. Qed.

Lemma compareFn_booleans k a b x y :
  get a k = VBoolean x -> get b k = VBoolean y ->
  compareFn get localeCompare k ascending a b = Z.b2z x - Z.b2z y.
Proof. unfold compareFn. intros -> ->. now destruct x, y. Qed.

Lemma compareFn_text k a b :
  is_nullish (get a k) = false -> is_nullish (get b k) = false ->
  typed_pair (get a k) (get b k) = false ->
  compareFn get localeCompare k ascending a b
  = localeCompare (js_String (get a k)) (js_String (get b k)).
Proof.
  unfold compareFn. intros -> ->.
  destruct (get a k), (get b k); simpl; congruence.
Qed.

Lemma compareFn_descending k a b :
  compareFn get localeCompare k descending a b
  = - compareFn get localeCompare k ascending a b.
Proof.
  unfold compareFn.
  destruct (is_nullish (get a k)); [reflexivity|].
  destruct (is_nullish (get b k)); [reflexivity|]. lia.
Qed.

Hypothesis localeCompare_antisym :
  forall s t, 0 <= localeCompare s t -> localeCompare t s <= 0.

Lemma compareFn_ascending_le k a b :
  compareFn get localeCompare k ascending a b <= 0 ->
  value_le localeCompare (get a k) (get b k).
Proof.
  unfold compareFn, value_le.
  destruct (get a k) as [| |s|x|[|]], (get b k) as [| |t|y|[|]]; simpl;
    auto; try lia; try discriminate.
Qed.

Lemma compareFn_ascending_ge k a b :
  0 <= compareFn get localeCompare k ascending a b ->
  value_le localeCompare (get b k) (get a k).
Proof.
  unfold compareFn, value_le.
  destruct (get a k) as [| |s|x|[|]], (get b k) as [| |t|y|[|]]; simpl;
    auto; try lia; try discriminate;
    try (intros H; apply localeCompare_antisym; exact H).
Qed.

Lemma compareFn_lt k d a b :
  compareFn get localeCompare k d a b < 0 -> in_order get localeCompare k d a b.
Proof.
  destruct d; simpl.
  - intros H. apply compareFn_ascending_le. lia.
  - rewrite compareFn_descending. intros H.
    apply compareFn_ascending_ge. lia.
Qed.

Lemma compareFn_ge k d a b :
  0 <= compareFn get localeCompare k d a b ->
  in_order get localeCompare k d b a.
Proof.
  destruct d; simpl.
  - apply compareFn_ascending_ge.
  - rewrite compareFn_descending. intros H.
    apply compareFn_ascending_le. lia.
Qed.
Lemma value_le_nonnull a b :
  value_le localeCompare a b -> is_nullish a = false -> is_nullish b = false.
Proof. destruct a, b; simpl; auto; contradiction. Qed.

Lemma value_le_null a b :
  value_le localeCompare a b -> is_nullish b = true -> is_nullish a = true.
Proof. destruct a, b; simpl; auto; contradiction. Qed.

Lemma nullish_dec k (x : A) :
  is_nullish (get x k) = true \/ is_nullish (get x k) = false.
Proof. destruct (is_nullish (get x k)); auto. Qed.

Lemma Sorted_ascending_nulls_first k l :
  Sorted (in_order get localeCompare k ascending) l ->
  nulls_then_values get k l.
Proof.
  apply Sorted_blocks.
  - apply nullish_dec.
  - intros x y. apply value_le_nonnull.
Qed.

Lemma Sorted_descending_nulls_last k l :
  Sorted (in_order get localeCompare k descending) l ->
  values_then_nulls get k l.
Proof.
  apply Sorted_blocks.
  - intros x. destruct (nullish_dec k x); auto.
  - intros x y. apply value_le_null.
Qed.

(** C2. With a sort key set, the sort stage orders the filtered array
    by the comparator of the source: under ascending a null or
    undefined value compares below every other value, two numbers
    compare by their difference, two booleans with false below true,
    anything else by the host's string comparison of the texts, and
    under descending the ascending result is negated.  The output is
    a rearrangement of the input in which every element and its
    successor are in the order the direction asks for, with the null
    values first when ascending and last when descending.  The host's
    string comparison is assumed not to place two strings each
    strictly after the other. *)
Theorem C2_sort_stage_ordered (k : Key.t) (d : Direction)
    (filteredData : list A) :
  let out :=
    sortStage get localeCompare {| key := Some k; direction := d |}
      filteredData in
  (forall a b, is_nullish (get a k) = true ->
     compareFn get localeCompare k ascending a b = -1)
  /\ (forall a b, is_nullish (get a k) = false ->
        is_nullish (get b k) = true ->
        compareFn get localeCompare k ascending a b = 1)
  /\ (forall a b x y, get a k = VNumber x -> get b k = VNumber y ->
        compareFn get localeCompare k ascending a b = x - y)
  /\ (forall a b x y, get a k = VBoolean x -> get b k = VBoolean y ->
        compareFn get localeCompare k ascending a b = Z.b2z x - Z.b2z y)
  /\ (forall a b, is_nullish (get a k) = false ->
        is_nullish (get b k) = false ->
        typed_pair (get a k) (get b k) = false ->
        compareFn get localeCompare k ascending a b
        = localeCompare (js_String (get a k)) (js_String (get b k)))
  /\ (forall a b, compareFn get localeCompare k descending a b
                  = - compareFn get localeCompare k ascending a b)
  /\ Permutation out filteredData
  /\ Sorted (in_order get localeCompare k d) out
  /\ match d with
     | ascending => nulls_then_values get k out
     | descending => values_then_nulls get k out
     end.
Proof.
  intros out.
  assert (Hs : Sorted (in_order get localeCompare k d) out).
  { apply sort_Sorted; [apply compareFn_lt | apply compareFn_ge]. }
  repeat split.
  - apply compareFn_null_left.
  - apply compareFn_null_right.
  - apply compareFn_numbers.
  - apply compareFn_booleans.
  - apply compareFn_text.
  - apply compareFn_descending.
  - apply sort_Permutation.
  - exact Hs.
  - destruct d.
    + now apply Sorted_ascending_nulls_first.
    + now apply Sorted_descending_nulls_last.
Qed.
End SortStage.

Lemma ordinalCompare_antisym s t :
  0 <= ordinalCompare s t -> ordinalCompare t s <= 0.
Proof.
  unfold ordinalCompare. rewrite (String.compare_antisym t s).
  destruct (String.compare s t); simpl; lia.
Qed.

Lemma C2_witness :
  Sorted (in_order field ordinalCompare Key.load_date descending)
    (sortStage field ordinalCompare
       {| key := Some Key.load_date; direction := descending |} [rowB; rowA])
  /\ sortStage field ordinalCompare
       {| key := Some Key.load_date; direction := descending |} [rowB; rowA]
     = [rowA; rowB].
Proof.
  split; [|reflexivity].
  exact (proj1 (proj2 (proj2 (proj2 (proj2 (proj2 (proj2 (proj2
    (C2_sort_stage_ordered field ordinalCompare ordinalCompare_antisym
       Key.load_date descending [rowB; rowA]))))))))).
Defined.

(** ** Scenarios *)

Example scenario_default_sort :
  processedData field ordinalCompare asciiLowerCase [rowA; rowB] (sortConfig initialState) []
  = [rowA; rowB].
Proof. reflexivity. Qed.

Example scenario_ascending_date :
  processedData field ordinalCompare asciiLowerCase [rowA; rowB]
    {| key := Some Key.load_date; direction := ascending |} []
  = [rowB; rowA].
Proof. reflexivity. Qed.

Example scenario_filter_source :
  processedData field ordinalCompare asciiLowerCase [rowA; rowB] (sortConfig initialState)
    [(Key.source, "a"%string)]
  = [rowA].
Proof. reflexivity. Qed.

Example scenario_filter_status :
  applyFilters field asciiLowerCase [rowA; rowB] [(Key.load_status, "FAL"%string)] = [rowB].
Proof. reflexivity. Qed.

Example scenario_sort_count :
  sortStage field ordinalCompare
    {| key := Some Key.record_count; direction := ascending |} [rowA; rowB]
  = [rowB; rowA].
Proof. reflexivity. Qed.

(** C10. Filtering the count column matches the plain decimal text of
    the number, not the grouped text the cell shows: a record whose
    count is 1000 matches the filter text 1000 and does not match
    1,000, while its cell reads 1,000 under en-US formatting.  The
    host's [toLowerCase] is any that folds ASCII as ECMAScript says. *)
Theorem C10_count_filter_plain_decimal (toLowerCase : string -> string)
    (date : option string) (src : string) (status : bool) :
  folds_ascii toLowerCase ->
  let r := {| load_date := date; source := src; record_count := 1000;
              load_status := status |} in
  js_String (field r Key.record_count) = "1000"%string
  /\ filterItem field toLowerCase Key.record_count (toLowerCase "1000") r
     = true
  /\ filterItem field toLowerCase Key.record_count (toLowerCase "1,000") r
     = false
  /\ applyFilters field toLowerCase [r] [(Key.record_count, "1000"%string)]
     = [r]
  /\ applyFilters field toLowerCase [r] [(Key.record_count, "1,000"%string)]
     = []
  /\ (forall zone index,
        count_cell (renderRow zone toLocaleString_enUS index r)
        = "1,000"%string).
Proof.
  intros Hfold r.
  assert (H1 : toLowerCase "1000" = "1000"%string)
    by (rewrite Hfold; reflexivity).
  assert (H2 : toLowerCase "1,000" = "1,000"%string)
    by (rewrite Hfold; reflexivity).
  assert (F1 : filterItem field toLowerCase Key.record_count
                 (toLowerCase "1000") r = true).
  { unfold filterItem, r. cbn [field record_count is_nullish].
    change (js_String (VNumber 1000)) with "1000"%string.
    rewrite H1. reflexivity. }
  assert (F2 : filterItem field toLowerCase Key.record_count
                 (toLowerCase "1,000") r = false).
  { unfold filterItem, r. cbn [field record_count is_nullish].
    change (js_String (VNumber 1000)) with "1000"%string.
    rewrite H1, H2. reflexivity. }
  split; [reflexivity|]. split; [exact F1|]. split; [exact F2|].
  unfold applyFilters. cbn [fold_left applyFilter truthy List.filter].
  rewrite F1, F2. repeat split.
Qed.

Lemma C10_witness :
  applyFilters field asciiLowerCase [rowA; {| load_date := None; source := "B";
                                              record_count := 1000;
                                              load_status := false |}]
    [(Key.record_count, "1000"%string)]
  = [{| load_date := None; source := "B"; record_count := 1000;
        load_status := false |}]
  /\ applyFilters field asciiLowerCase
       [{| load_date := None; source := "B"; record_count := 1000;
           load_status := false |}]
       [(Key.record_count, "1,000"%string)] = [].
Proof.
  split; [reflexivity|].
  exact (proj1 (proj2 (proj2 (proj2 (proj2
    (C10_count_filter_plain_decimal asciiLowerCase None "B" false
       folds_ascii_asciiLowerCase)))))).
Defined.

(** ** The sort configuration under interaction *)

Lemma key_is_true current k : key_is current k = true <-> current = Some k.
Proof.
  destruct current as [k'|]; simpl.
  - rewrite Key_eqb_eq. split; congruence.
  - split; discriminate.
Qed.

Lemma key_is_false current k : key_is current k = false <-> current <> Some k.
Proof.
  rewrite <- key_is_true. destruct (key_is current k); split; congruence.
Qed.

(** C5. The sort configuration starts at the date column, descending.
    A click on a column that is not the sort key makes it the key,
    ascending; a click on the sort key flips ascending to descending
    and descending back to ascending. *)
Theorem C5_sort_configuration_machine :
  sortConfig initialState
  = {| key := Some Key.load_date; direction := descending |}
  /\ (forall st k, sortConfig (step st (ClickHeader k))
                   = handleSort (sortConfig st) k)
  /\ (forall current k, key current <> Some k ->
        handleSort current k = {| key := Some k; direction := ascending |})
  /\ (forall current k, key current = Some k ->
        direction current = ascending ->
        handleSort current k = {| key := Some k; direction := descending |})
  /\ (forall current k, key current = Some k ->
        direction current = descending ->
        handleSort current k = {| key := Some k; direction := ascending |}).
Proof.
  split; [reflexivity|]. split; [reflexivity|]. unfold handleSort.
  split; [|split].
  - intros current k H. apply key_is_false in H. now rewrite H.
  - intros current k H ->. apply key_is_true in H. now rewrite H.
  - intros current k H ->. apply key_is_true in H. now rewrite H.
Qed.

Lemma C5_witness :
  sortConfig (run [ClickHeader Key.record_count])
  = {| key := Some Key.record_count; direction := ascending |}
  /\ sortConfig (run [ClickHeader Key.record_count;
                      ClickHeader Key.record_count])
     = {| key := Some Key.record_count; direction := descending |}
  /\ sortConfig (run [ClickHeader Key.record_count;
                      ClickHeader Key.record_count; ClickHeader Key.source])
     = {| key := Some Key.source; direction := ascending |}.
Proof.
  destruct C5_sort_configuration_machine as (_ & _ & Hother & Hasc & _).
  split; [|split].
  - apply (Hother (sortConfig initialState) Key.record_count). discriminate.
  - apply (Hasc (sortConfig (run [ClickHeader Key.record_count]))
             Key.record_count); reflexivity.
  - apply (Hother (sortConfig (run [ClickHeader Key.record_count;
                                    ClickHeader Key.record_count]))
             Key.source). discriminate.
Defined.

Lemma handleSort_key current k : key (handleSort current k) = Some k.
Proof. reflexivity. Qed.

Lemma step_key st ev :
  is_Some (key (sortConfig st)) -> is_Some (key (sortConfig (step st ev))).
Proof. destruct ev; simpl; eauto. Qed.

Lemma fold_step_key events : forall st,
  is_Some (key (sortConfig st)) ->
  is_Some (key (sortConfig (fold_left step events st))).
Proof.
  induction events as [|ev events IH]; intros st H; simpl; [exact H|].
  apply IH, step_key, H.
Qed.

(** C9. The sort key is set in the initial state and [handleSort]
    always installs one, so it is set after every sequence of header
    clicks and filter edits; the derivation therefore always sorts,
    and its branch that passes the filtered array through unsorted is
    never taken from a state the interface can reach. *)
Theorem C9_sort_key_always_set :
  is_Some (key (sortConfig initialState))
  /\ (forall current k, key (handleSort current k) = Some k)
  /\ (forall events, exists k,
        key (sortConfig (run events)) = Some k
        /\ forall (A : Type) (get : A -> Key.t -> JsValue)
             (localeCompare : string -> string -> Z)
             (toLowerCase : string -> string) (data : list A),
             processedData get localeCompare toLowerCase data
               (sortConfig (run events)) (filterValues (run events))
             = sort (compareFn get localeCompare k
                       (direction (sortConfig (run events))))
                 (applyFilters get toLowerCase data
                    (filterValues (run events)))).
Proof.
  split; [now eexists|]. split; [apply handleSort_key|].
  intros events.
  destruct (fold_step_key events initialState) as [k Hk]; [now eexists|].
  change (key (sortConfig (run events)) = Some k) in Hk.
  exists k. split; [exact Hk|].
  intros A get localeCompare toLowerCase data.
  unfold processedData, sortStage. now rewrite Hk.
Qed.

(** ** [formatDate] *)

Lemma formatDate_try_normal zone s :
  exists text, formatDate_try zone s = Normal text.
Proof. unfold formatDate_try. simpl. eauto. Qed.

Lemma formatDate_absent zone :
  formatDate zone MNull = "N/A"%string
  /\ formatDate zone MUndefined = "N/A"%string
  /\ formatDate zone (MString EmptyString) = "N/A"%string.
Proof. repeat split. Qed.

Lemma formatDate_unparsable zone s :
  truthy s = true -> JsDate.parse s = None ->
  formatDate zone (MString s) = "Invalid Date"%string.
Proof.
  intros Hs Hp. unfold formatDate, formatDate_try. rewrite Hs. simpl.
  now rewrite Hp.
Qed.

(** C3. [formatDate] answers N/A for null, undefined and the empty
    string and never throws.  On a non-empty string that is not a
    date it does not answer the string itself: the [Date] built-ins
    do not throw on it, the [catch] block is not entered, and the
    answer is the text Invalid Date. *)
Theorem C3_formatDate_unparsable_input (zone : JsDate.TimeZone) :
  formatDate zone MNull = "N/A"%string
  /\ formatDate zone MUndefined = "N/A"%string
  /\ formatDate zone (MString EmptyString) = "N/A"%string
  /\ (forall s, exists text, formatDate_try zone s = Normal text)
  /\ JsDate.parse "not-a-date" = None
  /\ formatDate zone (MString "not-a-date") = "Invalid Date"%string
  /\ formatDate zone (MString "not-a-date") <> "not-a-date"%string.
Proof.
  repeat split; try apply formatDate_try_normal.
  rewrite formatDate_unparsable by reflexivity. discriminate.
Qed.

Lemma time_components t :
  JsDate.MakeDate (JsDate.Day t)
    (JsDate.MakeTime (JsDate.HourFromTime t) (JsDate.MinFromTime t)
       (JsDate.SecFromTime t) (JsDate.msFromTime t)) = t.
Proof.
  unfold JsDate.MakeDate, JsDate.MakeTime, JsDate.Day, JsDate.HourFromTime,
    JsDate.MinFromTime, JsDate.SecFromTime, JsDate.msFromTime,
    JsDate.msPerDay, JsDate.msPerHour, JsDate.msPerMinute.
  change 86400000 with (1000 * 60 * 60 * 24).
  change 3600000 with (1000 * 60 * 60).
  change 60000 with (1000 * 60).
  rewrite <- !Z.div_div by lia.
  pose proof (Z.div_mod t 1000).
  pose proof (Z.div_mod (t / 1000) 60).
  pose proof (Z.div_mod (t / 1000 / 60) 60).
  pose proof (Z.div_mod (t / 1000 / 60 / 60) 24).
  lia.
Qed.

(** Where the offset at the instant is a whole number of minutes,
    adding [getTimezoneOffset] to the minutes makes the local time read
    what the UTC time read. *)
Lemma setMinutes_corrected zone t :
  JsDate.offsetAtUTC zone t mod JsDate.msPerMinute = 0 ->
  JsDate.setMinutes zone (Some t)
    (JsDate.number_add (JsDate.getMinutes zone (Some t))
       (JsDate.getTimezoneOffset zone (Some t)))
  = JsDate.TimeClip (JsDate.UTC zone t).
Proof.
  intros Hwhole.
  unfold JsDate.setMinutes, JsDate.number_add, JsDate.getMinutes,
    JsDate.getTimezoneOffset.
  f_equal. f_equal.
  set (t' := JsDate.LocalTime zone t).
  set (k := JsDate.offsetAtUTC zone t / JsDate.msPerMinute).
  assert (Hk : JsDate.offsetAtUTC zone t = k * JsDate.msPerMinute).
  { unfold k. pose proof (Z.div_mod (JsDate.offsetAtUTC zone t)
                            JsDate.msPerMinute).
    unfold JsDate.msPerMinute in *. lia. }
  assert (Hoff : Z.quot (t - t') JsDate.msPerMinute = - k).
  { unfold t', JsDate.LocalTime. rewrite Hk.
    replace (t - (t + k * JsDate.msPerMinute))
      with (- k * JsDate.msPerMinute) by lia.
    apply Z.quot_mul. discriminate. }
  rewrite Hoff.
  pose proof (time_components t') as H.
  unfold JsDate.MakeDate, JsDate.MakeTime in *.
  unfold t', JsDate.LocalTime in *. lia.
Qed.

(** What [formatDate] shows for a string that parses to midnight UTC of
    a day, when the offset then is a whole number of minutes and the
    corrected time is in the range of time values. *)
Lemma formatDate_parsed zone s day :
  truthy s = true ->
  JsDate.parse s = Some (day * JsDate.msPerDay) ->
  JsDate.offsetAtUTC zone (day * JsDate.msPerDay) mod JsDate.msPerMinute = 0 ->
  Z.abs (JsDate.UTC zone (day * JsDate.msPerDay)) <= 8640000000000000 ->
  formatDate zone (MString s)
  = JsDate.toLocaleDateString_enCA zone
      (Some (JsDate.UTC zone (day * JsDate.msPerDay))).
Proof.
  intros Hs Hp Hwhole Hclip. unfold formatDate, formatDate_try.
  rewrite Hs. simpl.
  rewrite Hp, setMinutes_corrected by exact Hwhole. unfold JsDate.TimeClip.
  apply Z.leb_le in Hclip. now rewrite Hclip.
Qed.

Lemma toLocaleDateString_day zone t day :
  JsDate.Day (JsDate.LocalTime zone t) = day ->
  JsDate.toLocaleDateString_enCA zone (Some t)
  = let '(y, m, d) := JsDate.civil_from_days day in
    (pretty y +:+ "-" +:+ JsDate.pad2 m +:+ "-" +:+ JsDate.pad2 d)%string.
Proof. unfold JsDate.toLocaleDateString_enCA. now intros ->. Qed.

(** *** The calendar and the date text, both ways *)

Lemma check_range_spec P n : forall lo,
  check_range P lo n = true ->
  forall z, lo <= z < lo + Z.of_nat n -> P z = true.
Proof.
  induction n as [|n IH]; intros lo H z Hz; [lia|].
  cbn [check_range] in H. apply andb_true_iff in H as [H0 H1].
  destruct (Z.eq_dec z lo) as [->|Hne]; [exact H0|].
  apply (IH (lo + 1) H1). lia.
Qed.

Lemma year_text_checked y : 1000 <= y <= 9999 -> year_text_ok y = true.
Proof.
  intros Hy. apply (check_range_spec year_text_ok (Z.to_nat 9000) 1000); [|lia].
  vm_compute. reflexivity.
Qed.

Lemma pad2_text_checked n : 1 <= n <= 31 -> pad2_text_ok n = true.
Proof.
  intros Hn. apply (check_range_spec pad2_text_ok (Z.to_nat 31) 1); [|lia].
  vm_compute. reflexivity.
Qed.

Lemma is_leap_era x era : JsDate.is_leap (x + era * 400) = JsDate.is_leap x.
Proof.
  unfold JsDate.is_leap.
  replace (x + era * 400) with (x + (era * 100) * 4) at 1 by lia.
  replace (x + era * 400) with (x + (era * 4) * 100) at 1 by lia.
  now rewrite !Z.mod_add by lia.
Qed.

Lemma days_in_month_bound y m : JsDate.days_in_month y m <= 31.
Proof.
  unfold JsDate.days_in_month.
  repeat match goal with |- context [if ?b then _ else _] => destruct b end;
    lia.
Qed.

Lemma valid_date_bounds y m d :
  JsDate.valid_date y m d = true ->
  1 <= m <= 12 /\ 1 <= d <= JsDate.days_in_month y m.
Proof. unfold JsDate.valid_date. lia. Qed.

Lemma valid_date_era y m d era :
  JsDate.valid_date (y + era * 400) m d = JsDate.valid_date y m d.
Proof.
  unfold JsDate.valid_date, JsDate.days_in_month. now rewrite is_leap_era.
Qed.

Lemma year_of_era_inverse yoe doy :
  0 <= yoe < 400 -> 0 <= doy ->
  (doy <= 364
   \/ (doy = 365 /\ yoe mod 4 = 3 /\ (yoe mod 100 <> 99 \/ yoe = 399))) ->
  let doe := yoe * 365 + yoe / 4 - yoe / 100 + doy in
  0 <= doe < 146097
  /\ (doe - doe / 1460 + doe / 36524 - doe / 146096) / 365 = yoe.
Proof.
  intros Hy Hd Hl doe. subst doe. Z.div_mod_to_equations. lia.
Qed.

Lemma day_of_year_inverse m d :
  1 <= m <= 12 -> 1 <= d <= 31 ->
  (m = 2 -> d <= 29) ->
  (m = 4 \/ m = 6 \/ m = 9 \/ m = 11 -> d <= 30) ->
  let mm := if 2 <? m then m - 3 else m + 9 in
  let doy := (153 * mm + 2) / 5 + d - 1 in
  let mp := (5 * doy + 2) / 153 in
  0 <= doy <= 365
  /\ (doy = 365 -> m = 2 /\ d = 29)
  /\ mp = mm
  /\ doy - (153 * mp + 2) / 5 + 1 = d.
Proof.
  intros Hm Hd Hfeb H30.
  assert (Hcases : m = 1 \/ m = 2 \/ m = 3 \/ m = 4 \/ m = 5 \/ m = 6 \/
                   m = 7 \/ m = 8 \/ m = 9 \/ m = 10 \/ m = 11 \/ m = 12)
    by lia.
  repeat (destruct Hcases as [->|Hcases]); try subst m;
    cbn [Z.ltb Z.compare Pos.compare Pos.compare_cont];
    cbv zeta; Z.div_mod_to_equations; lia.
Qed.

Lemma is_leap_year_of_era yoe :
  0 <= yoe < 400 -> JsDate.is_leap (yoe + 1) = true ->
  yoe mod 4 = 3 /\ (yoe mod 100 <> 99 \/ yoe = 399).
Proof.
  unfold JsDate.is_leap. intros Hy H.
  apply andb_true_iff in H as [H4 H].
  apply Z.eqb_eq in H4. apply orb_true_iff in H.
  rewrite negb_true_iff, Z.eqb_neq, Z.eqb_eq in H.
  Z.div_mod_to_equations. lia.
Qed.

Lemma civil_days_inverse y m d :
  JsDate.valid_date y m d = true ->
  JsDate.civil_from_days (JsDate.days_from_civil y m d) = (y, m, d).
Proof.
  intros Hv. destruct (valid_date_bounds _ _ _ Hv) as [Hm Hd].
  pose proof (days_in_month_bound y m) as Hb.
  unfold JsDate.days_from_civil, JsDate.civil_from_days.
  set (y' := if m <=? 2 then y - 1 else y).
  set (era := y' / 400). set (yoe := y' - era * 400).
  assert (Hyoe : 0 <= yoe < 400).
  { unfold yoe, era. pose proof (Z.div_mod y' 400).
    pose proof (Z.mod_pos_bound y' 400). lia. }
  assert (Hy : y = yoe + (if m <=? 2 then 1 else 0) + era * 400).
  { unfold yoe, y'. destruct (m <=? 2); lia. }
  assert (Hfeb : m = 2 -> d <= 29).
  { intros E. rewrite E in Hd. unfold JsDate.days_in_month in Hd.
    cbn in Hd. destruct (JsDate.is_leap y); lia. }
  assert (H30 : m = 4 \/ m = 6 \/ m = 9 \/ m = 11 -> d <= 30).
  { unfold JsDate.days_in_month in Hd.
    intros [E|[E|[E|E]]]; rewrite E in Hd; cbn in Hd; lia. }
  assert (Hleap : m = 2 -> d = 29 -> JsDate.is_leap (yoe + 1) = true).
  { intros E2 E29. rewrite Hy, E2, E29 in Hd.
    unfold JsDate.days_in_month in Hd. rewrite is_leap_era in Hd.
    cbn in Hd. destruct (JsDate.is_leap (yoe + 1)); [reflexivity | lia]. }
  destruct (day_of_year_inverse m d Hm ltac:(lia) Hfeb H30)
    as (Hdoy & H365 & Hmp & Hday).
  set (mm := if 2 <? m then m - 3 else m + 9) in *.
  set (doy := (153 * mm + 2) / 5 + d - 1) in *.
  assert (Hl : doy <= 364
               \/ (doy = 365 /\ yoe mod 4 = 3
                   /\ (yoe mod 100 <> 99 \/ yoe = 399))).
  { destruct (Z.eq_dec doy 365) as [E|E]; [right | left; lia].
    destruct (H365 E) as [E2 E29].
    split; [exact E|]. now apply is_leap_year_of_era, Hleap. }
  destruct (year_of_era_inverse yoe doy Hyoe ltac:(lia) Hl) as [Hdoe Hyear].
  unfold JsDate.day_of_era. fold mm. fold doy.
  set (doe := yoe * 365 + yoe / 4 - yoe / 100 + doy) in *.
  assert (Hera : (era * 146097 + doe - 719468 + 719468) / 146097 = era).
  { symmetry. apply (Z.div_unique _ _ _ doe); lia. }
  rewrite Hera.
  replace (era * 146097 + doe - 719468 + 719468 - era * 146097) with doe
    by lia.
  unfold JsDate.civil_of_era_day. rewrite Hyear.
  replace (doe - (365 * yoe + yoe / 4 - yoe / 100)) with doy
    by (unfold doe; lia).
  rewrite Hmp in Hday |- *. rewrite Hday.
  assert (Hmonth : (if mm <? 10 then mm + 3 else mm - 9) = m).
  { unfold mm. destruct (2 <? m) eqn:E2.
    - apply Z.ltb_lt in E2. destruct (m - 3 <? 10) eqn:E; lia.
    - apply Z.ltb_ge in E2. destruct (m + 9 <? 10) eqn:E; lia. }
  rewrite Hmonth. f_equal. f_equal. lia.
Qed.

Lemma days_from_civil_bounds y m d :
  1000 <= y <= 9999 -> 1 <= m <= 12 -> 1 <= d <= 31 ->
  -400000 <= JsDate.days_from_civil y m d <= 3000000.
Proof.
  intros Hy Hm Hd. unfold JsDate.days_from_civil, JsDate.day_of_era.
  destruct (m <=? 2), (2 <? m); Z.div_mod_to_equations; lia.
Qed.

Lemma parse_iso_date y m d :
  1000 <= y <= 9999 -> JsDate.valid_date y m d = true ->
  truthy (iso_date y m d) = true
  /\ JsDate.parse (iso_date y m d)
     = Some (JsDate.days_from_civil y m d * JsDate.msPerDay).
Proof.
  intros Hy Hv. destruct (valid_date_bounds _ _ _ Hv) as [Hm Hd].
  pose proof (days_in_month_bound y m) as Hb.
  pose proof (year_text_checked y Hy) as Ty.
  pose proof (pad2_text_checked m ltac:(lia)) as Tm.
  pose proof (pad2_text_checked d ltac:(lia)) as Td.
  unfold iso_date, year_text_ok, pad2_text_ok in *.
  destruct (pretty y) as [|a [|b [|c [|e [|? ?]]]]]; try discriminate.
  destruct (JsDate.number4 a b c e) as [vy|] eqn:Ey; [|discriminate].
  destruct (JsDate.pad2 m) as [|m1 [|m2 [|? ?]]]; try discriminate.
  destruct (JsDate.number2 m1 m2) as [vm|] eqn:Em; [|discriminate].
  destruct (JsDate.pad2 d) as [|d1 [|d2 [|? ?]]]; try discriminate.
  destruct (JsDate.number2 d1 d2) as [vd|] eqn:Ed; [|discriminate].
  apply Z.eqb_eq in Ty, Tm, Td. subst vy vm vd.
  split; [reflexivity|].
  cbv [String.append JsDate.parse]. rewrite Ascii.eqb_refl. cbn [andb].
  now rewrite Ey, Em, Ed, Hv.
Qed.

(** The text of a valid date is shown as it is in a zone where, at
    midnight UTC of that day, the offset is a whole number of minutes
    and less than a day, and where the local midnight of that day,
    brought back to UTC by the host, is an instant of that local day. *)
Lemma formatDate_round_trip zone y m d :
  1000 <= y <= 9999 -> JsDate.valid_date y m d = true ->
  let t := JsDate.days_from_civil y m d * JsDate.msPerDay in
  JsDate.offsetAtUTC zone t mod JsDate.msPerMinute = 0 ->
  Z.abs (JsDate.offsetAtLocal zone t) < JsDate.msPerDay ->
  JsDate.Day (JsDate.LocalTime zone (JsDate.UTC zone t))
  = JsDate.days_from_civil y m d ->
  formatDate zone (MString (iso_date y m d)) = iso_date y m d.
Proof.
  intros Hy Hv t Hwhole Hsmall Hday. subst t.
  destruct (parse_iso_date y m d Hy Hv) as [Ht Hp].
  destruct (valid_date_bounds _ _ _ Hv) as [Hm Hd].
  pose proof (days_in_month_bound y m) as Hb.
  pose proof (days_from_civil_bounds y m d Hy Hm ltac:(lia)) as Hdays.
  rewrite (formatDate_parsed zone _ _ Ht Hp Hwhole).
  - rewrite (toLocaleDateString_day _ _ _ Hday), civil_days_inverse
      by exact Hv.
    reflexivity.
  - unfold JsDate.UTC, JsDate.msPerDay in *. lia.
Qed.

(** A zone that keeps a whole number of minutes, less than a day, meets
    these conditions at every midnight UTC. *)
Lemma fixedZone_conditions minutes day :
  -1440 < minutes < 1440 ->
  let zone := JsDate.fixedZone minutes in
  let t := day * JsDate.msPerDay in
  JsDate.offsetAtUTC zone t mod JsDate.msPerMinute = 0
  /\ Z.abs (JsDate.offsetAtLocal zone t) < JsDate.msPerDay
  /\ JsDate.Day (JsDate.LocalTime zone (JsDate.UTC zone t)) = day.
Proof.
  intros Hm zone t. unfold zone, t, JsDate.fixedZone, JsDate.LocalTime,
    JsDate.UTC, JsDate.Day. cbn [JsDate.offsetAtUTC JsDate.offsetAtLocal].
  split; [apply Z.mod_mul; discriminate|]. split.
  - unfold JsDate.msPerMinute, JsDate.msPerDay. lia.
  - replace (day * JsDate.msPerDay - - minutes * JsDate.msPerMinute
             + - minutes * JsDate.msPerMinute)
      with (day * JsDate.msPerDay) by lia.
    apply Z.div_mul. discriminate.
Qed.

Lemma serialize_load_date raw text :
  Raw.load_date raw = Some {| Raw.value := text |} ->
  load_date (serialize raw) = Some text.
Proof. intros H. unfold serialize. cbn [load_date]. now rewrite H. Qed.

(** C4. The correction in [formatDate] is by whole minutes, and it
    falls short where the zone's offset has seconds: for a viewer
    whose local time is 44 minutes 30 seconds behind UTC (Monrovia
    before 1972) a wrapper whose value is 1970-01-01 is normalized to
    that string, [getTimezoneOffset] answers 44, and [formatDate]
    shows the day before, 1969-12-31. *)
Theorem C4_offset_with_seconds_shows_previous_day (src : string) (count : Z)
    (status : bool) :
  let zone := JsDate.fixedZoneSeconds (-2670) in
  let raw := {| Raw.load_date := Some {| Raw.value := "1970-01-01" |};
                Raw.source := src; Raw.record_count := count;
                Raw.load_status := status |} in
  load_date (serialize raw) = Some "1970-01-01"%string
  /\ JsDate.parse "1970-01-01" = Some 0
  /\ JsDate.getMinutes zone (Some 0) = Some 15
  /\ JsDate.getTimezoneOffset zone (Some 0) = Some 44
  /\ formatDate zone (of_nullable (load_date (serialize raw)))
     = "1969-12-31"%string.
Proof. repeat split. Qed.

(** X21. Where the viewer's zone has, at midnight UTC of the stored
    day, an offset of a whole number of minutes below a day, and the
    host maps the local midnight of that day to an instant of that
    local day, a wrapper holding the text of a valid date with a year
    from 1000 to 9999 is normalized to that text and [formatDate]
    shows that text.  Every zone that keeps one whole number of
    minutes is such a zone. *)
Theorem X21_round_trip_where_offset_is_whole_minutes
    (zone : JsDate.TimeZone) (raw : Raw.BigQueryRecord) (y m d : Z) :
  1000 <= y <= 9999 -> JsDate.valid_date y m d = true ->
  Raw.load_date raw = Some {| Raw.value := iso_date y m d |} ->
  let t := JsDate.days_from_civil y m d * JsDate.msPerDay in
  (JsDate.offsetAtUTC zone t mod JsDate.msPerMinute = 0
   /\ Z.abs (JsDate.offsetAtLocal zone t) < JsDate.msPerDay
   /\ JsDate.Day (JsDate.LocalTime zone (JsDate.UTC zone t))
      = JsDate.days_from_civil y m d
   \/ exists minutes, -1440 < minutes < 1440
                      /\ zone = JsDate.fixedZone minutes) ->
  load_date (serialize raw) = Some (iso_date y m d)
  /\ formatDate zone (of_nullable (load_date (serialize raw)))
     = iso_date y m d.
Proof.
  intros Hy Hv Hraw t Hzone.
  rewrite (serialize_load_date raw _ Hraw). split; [reflexivity|].
  cbn [of_nullable].
  assert (H : JsDate.offsetAtUTC zone t mod JsDate.msPerMinute = 0
              /\ Z.abs (JsDate.offsetAtLocal zone t) < JsDate.msPerDay
              /\ JsDate.Day (JsDate.LocalTime zone (JsDate.UTC zone t))
                 = JsDate.days_from_civil y m d).
  { destruct Hzone as [H|(minutes & Hm & ->)]; [exact H|].
    exact (fixedZone_conditions minutes _ Hm). }
  destruct H as (H1 & H2 & H3). now apply formatDate_round_trip.
Qed.

Lemma X21_witness :
  formatDate (JsDate.fixedZone 300)
    (of_nullable (load_date (serialize
       {| Raw.load_date := Some {| Raw.value := "2024-03-15" |};
          Raw.source := "A"; Raw.record_count := 10;
          Raw.load_status := true |})))
  = "2024-03-15"%string.
Proof.
  apply (X21_round_trip_where_offset_is_whole_minutes (JsDate.fixedZone 300)
           _ 2024 3 15); [lia | reflexivity | reflexivity |].
  right. exists 300. split; [lia | reflexivity].
Defined.

Example formatDate_east :
  formatDate (JsDate.fixedZone (-600)) (MString "1999-12-31")
  = "1999-12-31"%string.
Proof. vm_compute. reflexivity. Qed.

Example formatDate_leap_day :
  formatDate (JsDate.fixedZone 480) (MString "2024-02-29")
  = "2024-02-29"%string.
Proof. vm_compute. reflexivity. Qed.

(** ** Rendering empty results *)

Lemma sortStage_nil {A : Type} (get : A -> Key.t -> JsValue) localeCompare cfg :
  sortStage get localeCompare cfg [] = [].
Proof. unfold sortStage. now destruct (key cfg). Qed.

Lemma sortStage_nonempty {A : Type} (get : A -> Key.t -> JsValue)
    localeCompare cfg (l : list A) :
  l <> [] -> sortStage get localeCompare cfg l <> [].
Proof.
  intros Hl Hs. apply Hl. unfold sortStage in Hs.
  destruct (key cfg) as [k|]; [|exact Hs].
  apply Permutation_nil. rewrite <- Hs. apply sort_Permutation.
Qed.

Section RenderEmpty.
Variable localeCompare : string -> string -> Z.
Variable toLowerCase : string -> string.
Variable zone : JsDate.TimeZone.
Variable toLocaleString : Z -> string.

(** C6. With an absent array ([null] or [undefined]) the render
    throws a [TypeError], whatever the state: the memoised derivation
    spreads [data] before the early return that tests [!data] is
    reached, so the message that no initial data was found is not
    rendered. *)
Theorem C6_absent_data_throws (st : State) :
  BigQueryTable localeCompare toLowerCase zone toLocaleString None st
  = Throw (ErrorObject "TypeError" "data is not iterable")
  /\ BigQueryTable localeCompare toLowerCase zone toLocaleString None st
     <> Normal (Paragraph "No initial data found to display or filter.").
Proof. split; [reflexivity | discriminate]. Qed.

(** X22. For an input array a render never throws.  An empty array
    renders the message that no initial data was found, and no table.
    A non-empty array whose rows are all removed by the filters
    renders the table with the single message row that no records
    match; otherwise the body holds one row per derived record. *)
Theorem X22_empty_results_render_messages
    (data : list SerializableBigQueryRecord) (st : State) :
  (exists view,
     BigQueryTable localeCompare toLowerCase zone toLocaleString (Some data) st
     = Normal view)
  /\ (data = [] ->
      BigQueryTable localeCompare toLowerCase zone toLocaleString (Some data) st
      = Normal (Paragraph "No initial data found to display or filter."))
  /\ (data <> [] ->
      applyFilters field toLowerCase data (filterValues st) = [] ->
      BigQueryTable localeCompare toLowerCase zone toLocaleString (Some data) st
      = Normal (Table (map (renderHeader st) columnKeys)
                  (MessageRow 4 "No records match the current filters.")))
  /\ (data <> [] ->
      applyFilters field toLowerCase data (filterValues st) <> [] ->
      exists rows,
        BigQueryTable localeCompare toLowerCase zone toLocaleString
          (Some data) st
        = Normal (Table (map (renderHeader st) columnKeys) (DataRows rows))
        /\ length rows
           = length (processedData field localeCompare toLowerCase data
                       (sortConfig st) (filterValues st))
        /\ rows <> []).
Proof.
  unfold BigQueryTable. cbn [spread mbind completion_bind no_data].
  split; [|split; [|split]].
  - destruct (length data =? 0)%nat; eauto.
  - now intros ->.
  - intros Hd Hf. destruct data as [|r data]; [contradiction|].
    cbn [length Nat.eqb]. unfold processedData. rewrite Hf, sortStage_nil.
    reflexivity.
  - intros Hd Hf. destruct data as [|r data]; [contradiction|].
    cbn [length Nat.eqb]. unfold processedData.
    pose proof (sortStage_nonempty field localeCompare (sortConfig st) _ Hf)
      as Hs.
    destruct (sortStage field localeCompare (sortConfig st)
                (applyFilters field toLowerCase (r :: data) (filterValues st)))
      as [|p ps] eqn:E; [contradiction|].
    eexists. split; [reflexivity|]. split; [|discriminate].
    now rewrite length_imap.
Qed.
End RenderEmpty.

Lemma X22_witness :
  BigQueryTable ordinalCompare asciiLowerCase (JsDate.fixedZone 0)
    toLocaleString_enUS (Some [rowA; rowB])
    (run [ChangeFilter Key.source "zzz"])
  = Normal (Table (map (renderHeader (run [ChangeFilter Key.source "zzz"]))
                     columnKeys)
              (MessageRow 4 "No records match the current filters.")).
Proof.
  apply (X22_empty_results_render_messages ordinalCompare asciiLowerCase
           (JsDate.fixedZone 0) toLocaleString_enUS
           [rowA; rowB] (run [ChangeFilter Key.source "zzz"]));
    [discriminate | reflexivity].
Defined.

(** ** The upstream fetch *)

Lemma missing_None x : x = None -> missing x = true.
Proof. now intros ->. Qed.

Lemma missing_Some s : truthy s = true -> missing (Some s) = false.
Proof. simpl. now intros ->. Qed.

Section FetchErrors.
Variable env : gmap string string.
Variable client_query : QueryOptions -> completion (list Raw.BigQueryRecord).

(** C8. [fetchBigQueryData] needs the project, dataset, table and
    location settings: when one of them is absent it throws an error
    with a readable message and runs no query.  When they are all set
    and the query fails, it has run the query once and throws one
    error whose message is a fixed description followed by the
    message of the failure. *)
Theorem C8_fetch_errors :
  (env !! "GCP_PROJECT_ID"%string = None
   \/ env !! "BIGQUERY_DATASET"%string = None
   \/ env !! "BIGQUERY_TABLE"%string = None
   \/ env !! "BIGQUERY_LOCATION"%string = None ->
   fetchBigQueryData env client_query
   = ([], Throw (ErrorObject "Error"
        "Missing required environment variables for BigQuery connection (GCP_PROJECT_ID, BIGQUERY_DATASET, BIGQUERY_TABLE, BIGQUERY_LOCATION)")))
  /\ (forall projectId datasetId tableId location error,
        env !! "GCP_PROJECT_ID"%string = Some projectId ->
        env !! "BIGQUERY_DATASET"%string = Some datasetId ->
        env !! "BIGQUERY_TABLE"%string = Some tableId ->
        env !! "BIGQUERY_LOCATION"%string = Some location ->
        truthy projectId = true -> truthy datasetId = true ->
        truthy tableId = true -> truthy location = true ->
        let options :=
          {| query := query_text projectId datasetId tableId;
             location := location |} in
        client_query options = Throw error ->
        fetchBigQueryData env client_query
        = ([RunQuery options;
            ConsoleError "ERROR fetching data from BigQuery:" error],
           Throw (ErrorObject "Error"
                    ("Failed to fetch data from BigQuery. "
                     +:+ failure_message error)))).
Proof.
  split.
  - unfold fetchBigQueryData.
    intros [H|[H|[H|H]]]; rewrite H; cbn [missing]; now rewrite ?orb_true_r.
  - intros p d t l e Hp Hd Ht Hl Tp Td Tt Tl options He.
    unfold fetchBigQueryData. rewrite Hp, Hd, Ht, Hl.
    rewrite !missing_Some by assumption. subst options.
    cbn [orb default from_option id]. rewrite He. now destruct e.
Qed.
End FetchErrors.

Lemma C8_witness :
  fetchBigQueryData (delete "BIGQUERY_LOCATION"%string sample_env)
    failing_client
  = ([], Throw (ErrorObject "Error"
       "Missing required environment variables for BigQuery connection (GCP_PROJECT_ID, BIGQUERY_DATASET, BIGQUERY_TABLE, BIGQUERY_LOCATION)"))
  /\ fetchBigQueryData sample_env failing_client
     = ([RunQuery {| query := query_text "proj" "ds" "loads";
                     location := "EU" |};
         ConsoleError "ERROR fetching data from BigQuery:"
           (ErrorObject "Error" "Not found: Table loads")],
        Throw (ErrorObject "Error"
          "Failed to fetch data from BigQuery. Not found: Table loads")).
Proof.
  split.
  - apply (proj1 (C8_fetch_errors
                    (delete "BIGQUERY_LOCATION"%string sample_env)
                    failing_client)).
    right. right. right. vm_compute. reflexivity.
  - apply (proj2 (C8_fetch_errors sample_env failing_client)
             "proj"%string "ds"%string "loads"%string "EU"%string
             (ErrorObject "Error" "Not found: Table loads"));
      vm_compute; reflexivity.
Defined.

(** ** The derivation leaves its inputs alone *)

Lemma unchanged_refl σ : unchanged σ σ.
Proof. split; auto. Qed.

Lemma unchanged_trans σ1 σ2 σ3 :
  unchanged σ1 σ2 -> unchanged σ2 σ3 -> unchanged σ1 σ3.
Proof.
  intros [Ho1 Ha1] [Ho2 Ha2]. split; [now rewrite Ho2 | auto].
Qed.

Lemma deref_objects σ σ' : objects σ' = objects σ -> deref σ' = deref σ.
Proof. intros H. unfold deref. now rewrite H. Qed.

Lemma alloc_array_fresh σ elems :
  arrays σ !! (alloc_array σ elems).1 = None.
Proof. apply not_elem_of_dom, is_fresh. Qed.

Lemma alloc_array_lookup σ elems :
  arrays (alloc_array σ elems).2 !! (alloc_array σ elems).1 = Some elems.
Proof. apply lookup_insert_eq. Qed.

Lemma alloc_array_unchanged σ elems : unchanged σ (alloc_array σ elems).2.
Proof.
  split; [reflexivity|]. intros l old Hl.
  unfold alloc_array. cbn [snd arrays].
  rewrite lookup_insert_ne; [exact Hl|].
  intros E. pose proof (alloc_array_fresh σ elems) as Hf.
  unfold alloc_array in Hf. cbn [fst] in Hf.
  rewrite E, Hl in Hf. discriminate.
Qed.

Lemma unchanged_fresh σ σ' l :
  unchanged σ σ' -> arrays σ' !! l = None -> arrays σ !! l = None.
Proof.
  intros [_ Ha] Hl. destruct (arrays σ !! l) as [elems|] eqn:E; [|reflexivity].
  apply Ha in E. congruence.
Qed.

Lemma applyFilters_st_spec toLowerCase entries : forall l σ elems,
  arrays σ !! l = Some elems ->
  exists l' σ',
    applyFilters_st toLowerCase l entries σ = Some (l', σ')
    /\ unchanged σ σ'
    /\ arrays σ' !! l' = Some (applyFilters (deref σ) toLowerCase elems entries)
    /\ (l' = l \/ arrays σ !! l' = None).
Proof.
  induction entries as [|[k v] entries IH]; intros l σ elems Hl.
  - exists l, σ. simpl. auto using unchanged_refl.
  - cbn [applyFilters_st]. unfold applyFilters. cbn [fold_left applyFilter].
    destruct (truthy v).
    + unfold filter_st. rewrite Hl. cbn [mbind option_bind].
      set (kept := List.filter (filterItem (deref σ) toLowerCase k (toLowerCase v)) elems).
      destruct (alloc_array σ kept) as [l1 σ1] eqn:E.
      pose proof (alloc_array_fresh σ kept) as Hf.
      pose proof (alloc_array_lookup σ kept) as Hk.
      pose proof (alloc_array_unchanged σ kept) as Hu.
      rewrite E in Hf, Hk, Hu. cbn [fst snd] in Hf, Hk, Hu.
      destruct (IH l1 σ1 kept Hk) as (l' & σ' & Hrun & Hu' & Hres & Hnew).
      exists l', σ'. rewrite Hrun.
      rewrite (deref_objects σ σ1 (proj1 Hu)) in Hres.
      repeat split; try exact Hres; try apply (unchanged_trans _ _ _ Hu Hu').
      right. destruct Hnew as [->|Hnew]; [exact Hf|].
      exact (unchanged_fresh _ _ _ Hu Hnew).
    + destruct (IH l σ elems Hl) as (l' & σ' & Hrun & Hu' & Hres & Hnew).
      exists l', σ'. auto.
Qed.

Section Frame.
Variable localeCompare : string -> string -> Z.
Variable toLowerCase : string -> string.

(** C7. Deriving the processed view never changes its inputs: run on
    any store in which [data] is an array, the derivation returns, the
    array it returns is a new one holding the filtered and sorted
    elements, and the input array (like every array that existed
    before) holds the same elements in the same order and every record
    object is as it was. *)
Theorem C7_derivation_preserves_inputs (σ : Store) (data : loc)
    (elems : list loc) (current : SortConfig) (entries : FilterValues) :
  arrays σ !! data = Some elems ->
  exists result σ',
    processedData_st localeCompare toLowerCase data current entries σ = Some (result, σ')
    /\ arrays σ' !! data = Some elems
    /\ objects σ' = objects σ
    /\ (forall l old, arrays σ !! l = Some old -> arrays σ' !! l = Some old)
    /\ arrays σ !! result = None
    /\ arrays σ' !! result
       = Some (processedData (deref σ) localeCompare toLowerCase elems current entries).
Proof.
  intros Hdata. unfold processedData_st, spread_st.
  rewrite Hdata. cbn [mbind option_bind].
  destruct (alloc_array σ elems) as [l1 σ1] eqn:E.
  pose proof (alloc_array_fresh σ elems) as Hf.
  pose proof (alloc_array_lookup σ elems) as Hk.
  pose proof (alloc_array_unchanged σ elems) as Hu.
  rewrite E in Hf, Hk, Hu. cbn [fst snd] in Hf, Hk, Hu.
  destruct (applyFilters_st_spec toLowerCase entries l1 σ1 elems Hk)
    as (l2 & σ2 & Hrun & Hu2 & Hres & Hnew).
  rewrite Hrun. cbn [mbind option_bind].
  rewrite (deref_objects σ σ1 (proj1 Hu)) in Hres.
  pose proof (unchanged_trans _ _ _ Hu Hu2) as [Ho Ha].
  assert (Hfresh : arrays σ !! l2 = None).
  { destruct Hnew as [->|Hnew]; [exact Hf|].
    exact (unchanged_fresh _ _ _ Hu Hnew). }
  unfold processedData, sortStage. destruct (key current) as [k|].
  - unfold sort_st. rewrite Hres. cbn [mbind option_bind].
    eexists _, _. split; [reflexivity|]. cbn [arrays objects].
    assert (Hne : forall l old, arrays σ !! l = Some old -> l2 <> l)
      by (intros l old Hl ->; congruence).
    repeat split.
    + rewrite lookup_insert_ne by eauto. eauto.
    + exact Ho.
    + intros l old Hl. rewrite lookup_insert_ne by eauto. eauto.
    + exact Hfresh.
    + rewrite lookup_insert_eq. rewrite (deref_objects σ σ2 Ho). reflexivity.
  - exists l2, σ2. repeat split; eauto.
Qed.
End Frame.

Lemma C7_witness :
  exists result σ',
    processedData_st ordinalCompare asciiLowerCase 1%positive (sortConfig initialState)
      [(Key.source, "a"%string)] sample_store = Some (result, σ')
    /\ arrays σ' !! 1%positive = Some [10%positive; 11%positive]
    /\ objects σ' = objects sample_store
    /\ (forall l old, arrays sample_store !! l = Some old ->
                      arrays σ' !! l = Some old)
    /\ arrays sample_store !! result = None
    /\ arrays σ' !! result
       = Some (processedData (deref sample_store) ordinalCompare asciiLowerCase
                 [10%positive; 11%positive] (sortConfig initialState)
                 [(Key.source, "a"%string)]).
Proof.
  apply (C7_derivation_preserves_inputs ordinalCompare asciiLowerCase
           sample_store 1%positive
           [10%positive; 11%positive]).
  reflexivity.
Defined.

Example derivation_on_sample_store :
  processedData (deref sample_store) ordinalCompare asciiLowerCase
    [10%positive; 11%positive] (sortConfig initialState) []
  = [11%positive; 10%positive].
Proof. vm_compute. reflexivity. Qed.

(** * Further properties of the code *)

(** ** The derived view as a whole *)

Section DerivedView.
Context {A : Type} (get : A -> Key.t -> JsValue).
Variable localeCompare : string -> string -> Z.
Variable toLowerCase : string -> string.

Lemma sortStage_Permutation cfg (l : list A) :
  Permutation (sortStage get localeCompare cfg l) l.
Proof.
  unfold sortStage. destruct (key cfg); [apply sort_Permutation | reflexivity].
Qed.

(** X1. Whatever the sort configuration, the derived view is a
    rearrangement of the records that pass the filters: a record is in
    it exactly when it is in the input and passes every active filter,
    each as often as in the input, and the view is never longer than
    the input. *)
Theorem X1_derived_view_contents (data : list A) (cfg : SortConfig)
    (fv : FilterValues) :
  Permutation (processedData get localeCompare toLowerCase data cfg fv)
    (List.filter (passes get toLowerCase fv) data)
  /\ (forall item, In item (processedData get localeCompare toLowerCase data cfg fv)
                   <-> In item data /\ satisfies get toLowerCase fv item)
  /\ (length (processedData get localeCompare toLowerCase data cfg fv) <= length data)%nat.
Proof.
  assert (P : Permutation (processedData get localeCompare toLowerCase data cfg fv)
                (List.filter (passes get toLowerCase fv) data)).
  { unfold processedData. rewrite sortStage_Permutation.
    now rewrite applyFilters_filter. }
  split; [exact P|]. split.
  - intros item. rewrite <- passes_satisfies, <- filter_In.
    split; apply Permutation_in; [exact P | symmetry; exact P].
  - rewrite (Permutation_length P). apply filter_length_le.
Qed.

Lemma passes_Permutation fv fv' item :
  Permutation fv fv' -> passes get toLowerCase fv item = passes get toLowerCase fv' item.
Proof.
  unfold passes. induction 1 as [|e l l' _ IH|e e' l|l l' l'' _ IH1 _ IH2];
    simpl.
  - reflexivity.
  - now rewrite IH.
  - now rewrite !andb_assoc, (andb_comm (_ || _) (_ || _)).
  - now rewrite IH1.
Qed.

(** X2. The filter entries can be applied in any order: two filter
    mappings with the same entries, enumerated differently, keep the
    same records. *)
Theorem X2_filter_order_irrelevant (data : list A) (fv fv' : FilterValues) :
  Permutation fv fv' ->
  applyFilters get toLowerCase data fv = applyFilters get toLowerCase data fv'.
Proof.
  intros P. rewrite !applyFilters_filter. apply filter_ext.
  intros item. now apply passes_Permutation.
Qed.

Lemma filter_sublist (f : A -> bool) l : sublist (List.filter f l) l.
Proof.
  induction l as [|x l IH]; simpl; [constructor|].
  destruct (f x); now constructor.
Qed.

(** X3. Filtering only ever removes records: the filtered array is the
    input with some records left out, order kept, and adding entries to
    a filter mapping leaves a part of what the mapping kept before.  An
    entry holding the empty string changes nothing. *)
Theorem X3_filters_only_narrow (data : list A) (fv more : FilterValues)
    (k : Key.t) :
  sublist (applyFilters get toLowerCase data fv) data
  /\ sublist (applyFilters get toLowerCase data (fv ++ more)) (applyFilters get toLowerCase data fv)
  /\ applyFilters get toLowerCase data (fv ++ [(k, EmptyString)])
     = applyFilters get toLowerCase data fv
  /\ applyFilters get toLowerCase data [] = data.
Proof.
  assert (S : forall l es, sublist (applyFilters get toLowerCase l es) l).
  { intros l es. rewrite applyFilters_filter. apply filter_sublist. }
  split; [apply S|]. split; [|split; [|reflexivity]].
  - unfold applyFilters at 1. rewrite fold_left_app. apply S.
  - unfold applyFilters. now rewrite fold_left_app.
Qed.
End DerivedView.

Lemma X2_witness :
  applyFilters field asciiLowerCase [rowA; rowB]
    [(Key.source, "a"%string); (Key.load_status, "t"%string)]
  = applyFilters field asciiLowerCase [rowA; rowB]
      [(Key.load_status, "t"%string); (Key.source, "a"%string)].
Proof.
  apply X2_filter_order_irrelevant. apply perm_swap.
Defined.

(** ** Typing more into a filter *)

Lemma append_String c (a b : string) :
  (String c a +:+ b)%string = String c (a +:+ b).
Proof. reflexivity. Qed.

Lemma append_assoc (a b c : string) :
  ((a +:+ b) +:+ c = a +:+ (b +:+ c))%string.
Proof.
  induction a as [|x a IH]; [reflexivity|].
  now rewrite !append_String, IH.
Qed.

Lemma is_substring_inner pre t post s :
  is_substring (pre +:+ t +:+ post)%string s -> is_substring t s.
Proof.
  intros (a & b & ->). exists (a +:+ pre)%string, (post +:+ b)%string.
  now rewrite !append_assoc.
Qed.

Section Narrowing.
Context {A : Type} (get : A -> Key.t -> JsValue).
Variable toLowerCase : string -> string.
Hypothesis toLowerCase_ascii : folds_ascii toLowerCase.

Lemma toLowerCase_inner pre text post :
  is_ascii (pre +:+ text +:+ post) = true ->
  toLowerCase (pre +:+ text +:+ post)
  = (asciiLowerCase pre +:+ toLowerCase text +:+ asciiLowerCase post)%string.
Proof.
  intros Hall. rewrite (toLowerCase_ascii _ Hall).
  rewrite !is_ascii_app, !andb_true_iff in Hall.
  destruct Hall as (_ & Htext & _).
  now rewrite (toLowerCase_ascii _ Htext), !asciiLowerCase_app.
Qed.

Lemma column_matches_inner v pre text post :
  is_ascii (pre +:+ text +:+ post) = true ->
  column_matches toLowerCase v (pre +:+ text +:+ post)%string ->
  column_matches toLowerCase v text.
Proof.
  intros Hall (s & Hs & Hsub). exists s. split; [exact Hs|].
  rewrite (toLowerCase_inner _ _ _ Hall) in Hsub.
  exact (is_substring_inner _ _ _ _ Hsub).
Qed.

(** X4. Typing more ASCII characters into a column's filter, before or
    after the ASCII text already there, never brings a record back:
    every record kept under the longer text is kept under the shorter
    one.  The host's [toLowerCase] is any function that folds ASCII text
    as ECMAScript fixes it; the column values are arbitrary. *)
Theorem X4_longer_filter_text_narrows (data : list A) (k : Key.t)
    (pre text post : string) (item : A) :
  is_ascii (pre +:+ text +:+ post) = true ->
  In item (applyFilters get toLowerCase data [(k, (pre +:+ text +:+ post)%string)]) ->
  In item (applyFilters get toLowerCase data [(k, text)]).
Proof.
  intros Hall.
  rewrite !applyFilters_filter, !filter_In, !passes_satisfies.
  intros [Hin Hsat]. split; [exact Hin|].
  intros k' text' [[= <- <-]|[]] Hne.
  apply (column_matches_inner _ pre text post Hall), (Hsat k); [now left|].
  intros E. apply Hne. destruct pre; [|discriminate].
  simpl in E. destruct text; [reflexivity | discriminate].
Qed.
End Narrowing.

Lemma X4_witness :
  In rowA (applyFilters field asciiLowerCase [rowA; rowB] [(Key.load_date, "2024"%string)]).
Proof.
  apply (X4_longer_filter_text_narrows field asciiLowerCase
           folds_ascii_asciiLowerCase [rowA; rowB] Key.load_date
           EmptyString "2024" "-01").
  - reflexivity.
  - vm_compute. left. reflexivity.
Defined.

(** ** The interaction state *)

(** X5. Two clicks on the column that is the sort key restore the sort
    configuration, and from any configuration a third click on a column
    gives what the first one gave: a column's clicks alternate between
    ascending and descending. *)
Theorem X5_two_clicks_restore (current : SortConfig) (k : Key.t) :
  (key current = Some k -> handleSort (handleSort current k) k = current)
  /\ handleSort (handleSort (handleSort current k) k) k = handleSort current k.
Proof.
  unfold handleSort. cbn [key direction key_is].
  rewrite Key_eqb_refl. split.
  - destruct current as [key0 [|]]; cbn [key direction]; intros ->;
      cbn [key_is]; now rewrite Key_eqb_refl.
  - destruct (key_is (key current) k && is_ascending (direction current));
      reflexivity.
Qed.

Lemma X5_witness :
  handleSort (handleSort (sortConfig initialState) Key.load_date) Key.load_date
  = sortConfig initialState.
Proof.
  apply (proj1 (X5_two_clicks_restore (sortConfig initialState) Key.load_date)).
  reflexivity.
Defined.

Lemma fold_step_clicks events : forall st st',
  sortConfig st = sortConfig st' ->
  sortConfig (fold_left step events st)
  = sortConfig (fold_left step (List.filter is_click events) st').
Proof.
  induction events as [|[k|k v] events IH]; intros st st' H; simpl.
  - exact H.
  - apply IH. simpl. now rewrite H.
  - apply IH. exact H.
Qed.

Lemma fold_step_changes events : forall st st',
  filterValues st = filterValues st' ->
  filterValues (fold_left step events st)
  = filterValues
      (fold_left step (List.filter (fun ev => negb (is_click ev)) events) st').
Proof.
  induction events as [|[k|k v] events IH]; intros st st' H; simpl.
  - exact H.
  - apply IH. exact H.
  - apply IH. simpl. now rewrite H.
Qed.

(** X6. Sorting and filtering state do not interfere: after any
    sequence of interactions the sort configuration is the one the
    header clicks alone would have produced, and the filter mapping is
    the one the filter edits alone would have produced. *)
Theorem X6_sort_and_filter_state_independent (events : list Event) :
  sortConfig (run events) = sortConfig (run (List.filter is_click events))
  /\ filterValues (run events)
     = filterValues
         (run (List.filter (fun ev => negb (is_click ev)) events)).
Proof.
  split; [now apply fold_step_clicks | now apply fold_step_changes].
Qed.

Lemma filter_entry_set_same prev k v :
  filter_entry (set_entry prev k v) k = Some v.
Proof.
  induction prev as [|[k' v'] prev IH]; simpl.
  - now rewrite Key_eqb_refl.
  - destruct (Key.eqb k' k) eqn:E; simpl.
    + now rewrite Key_eqb_refl.
    + now rewrite E.
Qed.

Lemma filter_entry_set_other prev k v k' :
  k' <> k -> filter_entry (set_entry prev k v) k' = filter_entry prev k'.
Proof.
  intros Hne.
  assert (Hk : Key.eqb k k' = false).
  { destruct (Key.eqb k k') eqn:E; [|reflexivity].
    apply Key_eqb_eq in E. congruence. }
  induction prev as [|[k0 v0] prev IH]; simpl.
  - now rewrite Hk.
  - destruct (Key.eqb k0 k) eqn:E; simpl.
    + apply Key_eqb_eq in E. subst k0. now rewrite Hk.
    + now rewrite IH.
Qed.

(** X7. [handleFilterChange] writes one entry of the filter mapping:
    afterwards the edited column maps to the new text and every other
    column maps to what it mapped to before. *)
Theorem X7_filter_change_writes_one_entry (prev : FilterValues) (k : Key.t)
    (v : string) :
  filter_entry (handleFilterChange prev k v) k = Some v
  /\ (forall k', k' <> k ->
        filter_entry (handleFilterChange prev k v) k' = filter_entry prev k').
Proof.
  split; [apply filter_entry_set_same|].
  intros k' Hne. now apply filter_entry_set_other.
Qed.

Lemma set_entry_keys prev k v x :
  In x (map fst (set_entry prev k v)) -> x = k \/ In x (map fst prev).
Proof.
  induction prev as [|[k' v'] prev IH]; simpl.
  - intros [<-|[]]. now left.
  - destruct (Key.eqb k' k) eqn:E; simpl.
    + apply Key_eqb_eq in E. subst k'. tauto.
    + intros [<-|H]; [tauto|]. destruct (IH H); tauto.
Qed.

Lemma set_entry_NoDup prev k v :
  List.NoDup (map fst prev) -> List.NoDup (map fst (set_entry prev k v)).
Proof.
  induction prev as [|[k' v'] prev IH]; simpl; intros H.
  - repeat constructor. intros [].
  - inversion H as [|? ? Hnin Hnd]; subst.
    destruct (Key.eqb k' k) eqn:E; simpl.
    + apply Key_eqb_eq in E. subst k'. now constructor.
    + constructor; [|now apply IH].
      intros Hin. destruct (set_entry_keys _ _ _ _ Hin) as [->|Hin'].
      * now rewrite Key_eqb_refl in E.
      * contradiction.
Qed.

Lemma fold_step_NoDup events : forall st,
  List.NoDup (map fst (filterValues st)) ->
  List.NoDup (map fst (filterValues (fold_left step events st))).
Proof.
  induction events as [|[k|k v] events IH]; intros st H; simpl.
  - exact H.
  - apply IH. exact H.
  - apply IH. simpl. now apply set_entry_NoDup.
Qed.

(** X8. However the filters are edited, the filter mapping keeps one
    entry per column: no column key occurs twice in it, so it never
    has more than four entries. *)
Theorem X8_filter_mapping_one_entry_per_column (events : list Event) :
  List.NoDup (map fst (filterValues (run events)))
  /\ (length (filterValues (run events)) <= 4)%nat.
Proof.
  assert (H : List.NoDup (map fst (filterValues (run events)))).
  { apply fold_step_NoDup. constructor. }
  split; [exact H|].
  rewrite <- (length_map fst).
  apply (NoDup_incl_length H (l' := columnKeys)).
  intros [] _; simpl; tauto.
Qed.

(** X9. A filter box shows what was typed into it: after an edit of a
    column's filter the header's input for that column holds the new
    text, and the inputs of the other columns hold what they held. *)
Theorem X9_filter_input_shows_text (st : State) (k : Key.t) (v : string) :
  input_value (renderHeader (step st (ChangeFilter k v)) k) = v
  /\ (forall k', k' <> k ->
        input_value (renderHeader (step st (ChangeFilter k v)) k')
        = input_value (renderHeader st k')).
Proof.
  unfold renderHeader. cbn [input_value step filterValues handleFilterChange].
  split.
  - rewrite filter_entry_set_same. now destruct v.
  - intros k' Hne. now rewrite filter_entry_set_other.
Qed.

(** X10. In every state the interface can reach exactly one header
    shows a sort arrow: the header of the sort key, pointing up when
    ascending and down when descending. *)
Theorem X10_one_sort_arrow (events : list Event) :
  exists k,
    key (sortConfig (run events)) = Some k
    /\ (forall c,
          arrow (renderHeader (run events) c)
          = if Key.eqb k c
            then Some (if is_ascending (direction (sortConfig (run events)))
                       then ArrowUp else ArrowDown)
            else None)
    /\ List.filter (fun c => bool_decide (is_Some (arrow
                                (renderHeader (run events) c)))) columnKeys
       = [k].
Proof.
  destruct (fold_step_key events initialState) as [k Hk]; [now eexists|].
  change (key (sortConfig (run events)) = Some k) in Hk.
  exists k. split; [exact Hk|].
  unfold renderHeader, renderSortArrow. cbn [arrow]. rewrite Hk.
  cbn [key_is]. split.
  - intros c. now destruct (Key.eqb k c).
  - destruct k; reflexivity.
Qed.

(** ** The comparator on its own *)

Section Comparator.
Context {A : Type} (get : A -> Key.t -> JsValue).
Variable localeCompare : string -> string -> Z.

(** X11. On two records whose sort key is null or undefined the
    comparator answers the same non-zero number whichever comes first
    (-1 when ascending, 1 when descending), also for a record against
    itself: it does not order such records, and their order in the
    output is left to the sort. *)
Theorem X11_comparator_on_two_nulls (k : Key.t) (d : Direction) (a b : A) :
  is_nullish (get a k) = true -> is_nullish (get b k) = true ->
  compareFn get localeCompare k d a b = compareFn get localeCompare k d b a
  /\ compareFn get localeCompare k d a b
     = match d with ascending => -1 | descending => 1 end
  /\ compareFn get localeCompare k d a a <> 0.
Proof.
  intros Ha Hb. unfold compareFn. rewrite Ha, Hb. destruct d; repeat split; lia.
Qed.
End Comparator.

Lemma X11_witness :
  compareFn field ordinalCompare Key.load_date descending rowB rowB <> 0.
Proof.
  apply (X11_comparator_on_two_nulls field ordinalCompare Key.load_date
           descending rowB rowB); reflexivity.
Defined.

(** X12. On the count column and on the status column the comparator
    is a consistent order whatever the host's string comparison:
    swapping the arguments negates the result, the result is zero
    exactly for equal values, and it is transitive. *)
Theorem X12_typed_columns_compare_consistently
    (localeCompare : string -> string -> Z) (d : Direction)
    (a b c : SerializableBigQueryRecord) :
  let count := compareFn field localeCompare Key.record_count d in
  let status := compareFn field localeCompare Key.load_status d in
  count a b = - count b a
  /\ status a b = - status b a
  /\ (count a b = 0 <-> record_count a = record_count b)
  /\ (status a b = 0 <-> load_status a = load_status b)
  /\ (count a b <= 0 -> count b c <= 0 -> count a c <= 0)
  /\ (status a b <= 0 -> status b c <= 0 -> status a c <= 0).
Proof.
  unfold compareFn. cbn [field is_nullish].
  destruct d, (load_status a), (load_status b), (load_status c);
    cbn [Bool.eqb]; repeat split; intros; try lia; try congruence.
Qed.

(** ** The fetch, case by case *)

Section FetchCases.
Variable env : gmap string string.
Variable client_query : QueryOptions -> completion (list Raw.BigQueryRecord).

Lemma missing_false x : missing x = false -> exists s, x = Some s /\ truthy s = true.
Proof.
  destruct x as [s|]; simpl; [|discriminate].
  intros H. exists s. split; [reflexivity|]. now apply negb_false_iff.
Qed.

(** X13. With the four settings present and a query that succeeds,
    [fetchBigQueryData] runs that one query, on the table named by the
    project, dataset and table settings and at the configured location,
    logs nothing, and returns the rows of the client as they are. *)
Theorem X13_fetch_success (projectId datasetId tableId location : string)
    (rows : list Raw.BigQueryRecord) :
  env !! "GCP_PROJECT_ID"%string = Some projectId ->
  env !! "BIGQUERY_DATASET"%string = Some datasetId ->
  env !! "BIGQUERY_TABLE"%string = Some tableId ->
  env !! "BIGQUERY_LOCATION"%string = Some location ->
  truthy projectId = true -> truthy datasetId = true ->
  truthy tableId = true -> truthy location = true ->
  client_query {| query := query_text projectId datasetId tableId;
                  location := location |} = Normal rows ->
  fetchBigQueryData env client_query
  = ([RunQuery {| query := query_text projectId datasetId tableId;
                  location := location |}], Normal rows).
Proof.
  intros Hp Hd Ht Hl Tp Td Tt Tl Hq.
  unfold fetchBigQueryData. rewrite Hp, Hd, Ht, Hl.
  rewrite !missing_Some by assumption.
  cbn [orb default from_option id]. now rewrite Hq.
Qed.

(** X14. A setting that is present but empty counts as missing: the
    function throws the configuration error and runs no query. *)
Theorem X14_empty_setting_is_missing :
  env !! "GCP_PROJECT_ID"%string = Some EmptyString
  \/ env !! "BIGQUERY_DATASET"%string = Some EmptyString
  \/ env !! "BIGQUERY_TABLE"%string = Some EmptyString
  \/ env !! "BIGQUERY_LOCATION"%string = Some EmptyString ->
  fetchBigQueryData env client_query
  = ([], Throw (ErrorObject "Error"
       "Missing required environment variables for BigQuery connection (GCP_PROJECT_ID, BIGQUERY_DATASET, BIGQUERY_TABLE, BIGQUERY_LOCATION)")).
Proof.
  unfold fetchBigQueryData.
  intros [H|[H|[H|H]]]; rewrite H; cbn [missing truthy negb];
    now rewrite ?orb_true_r.
Qed.

(** X15. Whatever the environment and the client do,
    [fetchBigQueryData] runs at most one query, and a query it runs
    carries the configured location, which is not empty; the rows it
    returns are the rows that query gave, and an error is logged only
    after a failed query. *)
Theorem X15_at_most_one_query :
  let '(effects, result) := fetchBigQueryData env client_query in
  (length (List.filter is_query effects) <= 1)%nat
  /\ (forall options, In (RunQuery options) effects ->
        env !! "BIGQUERY_LOCATION"%string = Some (location options)
        /\ truthy (location options) = true
        /\ forall rows, result = Normal rows ->
                        client_query options = Normal rows)
  /\ (forall label error, In (ConsoleError label error) effects ->
        exists options, client_query options = Throw error
                        /\ In (RunQuery options) effects).
Proof.
  unfold fetchBigQueryData.
  destruct (missing (env !! "BIGQUERY_DATASET"%string)
            || missing (env !! "BIGQUERY_TABLE"%string)
            || missing (env !! "GCP_PROJECT_ID"%string)
            || missing (env !! "BIGQUERY_LOCATION"%string)) eqn:E.
  - simpl. repeat split; try lia; intros; contradiction.
  - apply orb_false_elim in E as [E Hl].
    destruct (missing_false _ Hl) as (l & -> & Tl).
    cbn [default from_option id].
    match goal with
    | |- context [client_query ?o] =>
        set (options := o); destruct (client_query options) as [rows|e] eqn:Q
    end.
    + simpl. split; [lia|]. split.
      * intros o [[= <-]|[]]. repeat split; auto. intros r [= <-]. exact Q.
      * intros label error [H|[]]. discriminate.
    + simpl. split; [lia|]. split.
      * intros o [[= <-]|[H|[]]]; [|discriminate].
        repeat split; auto. intros r H. discriminate.
      * intros label error [H|[[= <- <-]|[]]]; [discriminate|].
        exists options. split; [exact Q | now left].
Qed.
End FetchCases.

Lemma X13_witness :
  fetchBigQueryData sample_env (fun _ => Normal [])
  = ([RunQuery {| query := query_text "proj" "ds" "loads";
                  location := "EU" |}], Normal []).
Proof.
  apply (X13_fetch_success sample_env (fun _ => Normal [])
           "proj"%string "ds"%string "loads"%string "EU"%string []);
    vm_compute; reflexivity.
Defined.

Lemma X14_witness :
  fetchBigQueryData (<["BIGQUERY_TABLE"%string := EmptyString]> sample_env)
    failing_client
  = ([], Throw (ErrorObject "Error"
       "Missing required environment variables for BigQuery connection (GCP_PROJECT_ID, BIGQUERY_DATASET, BIGQUERY_TABLE, BIGQUERY_LOCATION)")).
Proof.
  apply X14_empty_setting_is_missing.
  right. right. left. vm_compute. reflexivity.
Defined.

(** ** The page *)

Section PageCases.
Variable env : gmap string string.
Variable client_query : QueryOptions -> completion (list Raw.BigQueryRecord).
Variable localeCompare : string -> string -> Z.
Variable toLowerCase : string -> string.
Variable zone : JsDate.TimeZone.
Variable toLocaleString : Z -> string.

(** X16. The page does to the outside world what the fetch does.  When
    the fetch throws, the page throws the same error and renders
    nothing; when the fetch returns rows, the render does not throw:
    it is the no-data message for zero rows and a table with the four
    header cells otherwise. *)
Theorem X16_page_outcomes :
  fst (HomePage env client_query localeCompare toLowerCase zone toLocaleString)
  = fst (fetchBigQueryData env client_query)
  /\ (forall e, snd (fetchBigQueryData env client_query) = Throw e ->
        snd (HomePage env client_query localeCompare toLowerCase zone toLocaleString)
        = Throw e)
  /\ (snd (fetchBigQueryData env client_query) = Normal [] ->
      snd (HomePage env client_query localeCompare toLowerCase zone toLocaleString)
      = Normal (Paragraph "No initial data found to display or filter."))
  /\ (forall rows, rows <> [] ->
        snd (fetchBigQueryData env client_query) = Normal rows ->
        exists body,
          snd (HomePage env client_query localeCompare toLowerCase zone toLocaleString)
          = Normal (Table (map (renderHeader initialState) columnKeys) body)).
Proof.
  unfold HomePage.
  destruct (fetchBigQueryData env client_query) as [effects fetched].
  cbn [fst snd]. split; [reflexivity|]. split; [|split].
  - now intros e ->.
  - now intros ->.
  - intros rows Hne ->. cbn [mbind completion_bind].
    unfold BigQueryTable. cbn [spread mbind completion_bind no_data].
    destruct rows as [|r rows]; [contradiction|].
    cbn [serializableData map length Nat.eqb]. eauto.
Qed.
End PageCases.

Lemma X16_witness :
  snd (HomePage sample_env failing_client ordinalCompare asciiLowerCase
         (JsDate.fixedZone 0) toLocaleString_enUS)
  = Throw (ErrorObject "Error"
      "Failed to fetch data from BigQuery. Not found: Table loads").
Proof.
  apply (proj1 (proj2 (X16_page_outcomes sample_env failing_client
                         ordinalCompare asciiLowerCase (JsDate.fixedZone 0)
                         toLocaleString_enUS))).
  vm_compute. reflexivity.
Defined.

(** ** Rows without a date *)

(** X17. A row whose date wrapper is null goes through normalization
    with a null date: its date cell reads N/A, and every non-empty
    text in the date filter hides it. *)
Theorem X17_row_without_date (raw : Raw.BigQueryRecord)
    (toLowerCase : string -> string) (zone : JsDate.TimeZone)
    (toLocaleString : Z -> string) (index : nat) (text : string)
    (data : list SerializableBigQueryRecord) :
  Raw.load_date raw = None ->
  date_cell (renderRow zone toLocaleString index (serialize raw))
  = "N/A"%string
  /\ (text <> EmptyString ->
      ~ In (serialize raw)
          (applyFilters field toLowerCase data [(Key.load_date, text)])).
Proof.
  intros Hraw.
  assert (Hl : load_date (serialize raw) = None).
  { unfold serialize. cbn [load_date]. now rewrite Hraw. }
  split.
  - unfold renderRow. cbn [date_cell]. now rewrite Hl.
  - intros Hne. rewrite applyFilters_filter, filter_In, passes_satisfies.
    intros [_ Hsat].
    apply (nullish_never_matches toLowerCase
             (field (serialize raw) Key.load_date) text).
    + unfold field. now rewrite Hl.
    + apply Hsat; [now left | exact Hne].
Qed.

Lemma X17_witness :
  date_cell (renderRow (JsDate.fixedZone 0) toLocaleString_enUS 0
               (serialize {| Raw.load_date := None; Raw.source := "B";
                             Raw.record_count := 5;
                             Raw.load_status := false |}))
  = "N/A"%string.
Proof.
  apply (X17_row_without_date _ asciiLowerCase (JsDate.fixedZone 0)
           toLocaleString_enUS 0%nat EmptyString []).
  reflexivity.
Defined.

(** ** Filtering twice *)

(** X19. Filtering is idempotent: applying a filter mapping to an array
    it has already filtered removes nothing more. *)
Theorem X19_filtering_twice_changes_nothing {A : Type}
    (get : A -> Key.t -> JsValue) (toLowerCase : string -> string)
    (data : list A) (fv : FilterValues) :
  applyFilters get toLowerCase (applyFilters get toLowerCase data fv) fv
  = applyFilters get toLowerCase data fv.
Proof.
  rewrite !applyFilters_filter, filter_filter. apply filter_ext.
  intros item. apply andb_diag.
Qed.

(** ** Deriving again *)

Section Rederive.
Variable localeCompare : string -> string -> Z.
Variable toLowerCase : string -> string.

Lemma processedData_st_spec (σ : Store) (data : loc) (elems : list loc)
    (current : SortConfig) (entries : FilterValues) :
  arrays σ !! data = Some elems ->
  exists result σ',
    processedData_st localeCompare toLowerCase data current entries σ = Some (result, σ')
    /\ unchanged σ σ'
    /\ arrays σ !! result = None
    /\ arrays σ' !! result
       = Some (processedData (deref σ) localeCompare toLowerCase elems current entries).
Proof.
  intros Hdata. unfold processedData_st, spread_st.
  rewrite Hdata. cbn [mbind option_bind].
  destruct (alloc_array σ elems) as [l1 σ1] eqn:E.
  pose proof (alloc_array_fresh σ elems) as Hf.
  pose proof (alloc_array_lookup σ elems) as Hk.
  pose proof (alloc_array_unchanged σ elems) as Hu.
  rewrite E in Hf, Hk, Hu. cbn [fst snd] in Hf, Hk, Hu.
  destruct (applyFilters_st_spec toLowerCase entries l1 σ1 elems Hk)
    as (l2 & σ2 & Hrun & Hu2 & Hres & Hnew).
  rewrite Hrun. cbn [mbind option_bind].
  rewrite (deref_objects σ σ1 (proj1 Hu)) in Hres.
  pose proof (unchanged_trans _ _ _ Hu Hu2) as Hu12.
  assert (Hfresh : arrays σ !! l2 = None).
  { destruct Hnew as [->|Hnew]; [exact Hf|].
    exact (unchanged_fresh _ _ _ Hu Hnew). }
  unfold processedData, sortStage. destruct (key current) as [k|].
  - unfold sort_st. rewrite Hres. cbn [mbind option_bind].
    eexists _, _. split; [reflexivity|]. destruct Hu12 as [Ho Ha].
    split; [|split; [exact Hfresh|]].
    + split; [exact Ho|]. intros l old Hl. cbn [arrays].
      rewrite lookup_insert_ne; [now apply Ha|].
      intros ->. rewrite Hl in Hfresh. discriminate.
    + cbn [arrays]. rewrite lookup_insert_eq.
      now rewrite (deref_objects σ σ2 Ho).
  - exists l2, σ2. auto.
Qed.

(** X20. Deriving the view again, with the same or another sort
    configuration and filter mapping, builds another array and leaves
    the earlier result as it was: after both runs the two results are
    different arrays, each holding its own derived view of the same
    input, and the input array and the record objects are still
    untouched. *)
Theorem X20_rederiving_keeps_earlier_result (σ : Store) (data : loc)
    (elems : list loc) (cfg1 cfg2 : SortConfig) (fv1 fv2 : FilterValues) :
  arrays σ !! data = Some elems ->
  exists r1 σ1 r2 σ2,
    processedData_st localeCompare toLowerCase data cfg1 fv1 σ = Some (r1, σ1)
    /\ processedData_st localeCompare toLowerCase data cfg2 fv2 σ1 = Some (r2, σ2)
    /\ r1 <> r2
    /\ arrays σ2 !! r1
       = Some (processedData (deref σ) localeCompare toLowerCase elems cfg1 fv1)
    /\ arrays σ2 !! r2
       = Some (processedData (deref σ) localeCompare toLowerCase elems cfg2 fv2)
    /\ arrays σ2 !! data = Some elems
    /\ objects σ2 = objects σ.
Proof.
  intros Hdata.
  destruct (processedData_st_spec σ data elems cfg1 fv1 Hdata)
    as (r1 & σ1 & Hrun1 & [Ho1 Ha1] & Hf1 & Hres1).
  pose proof (Ha1 _ _ Hdata) as Hdata1.
  destruct (processedData_st_spec σ1 data elems cfg2 fv2 Hdata1)
    as (r2 & σ2 & Hrun2 & [Ho2 Ha2] & Hf2 & Hres2).
  exists r1, σ1, r2, σ2. repeat split; auto.
  - intros ->. rewrite Hres1 in Hf2. discriminate.
  - rewrite Hres2. now rewrite (deref_objects σ σ1 Ho1).
  - now rewrite Ho2.
Qed.
End Rederive.

Lemma X20_witness :
  exists r1 σ1 r2 σ2,
    processedData_st ordinalCompare asciiLowerCase 1%positive (sortConfig initialState) []
      sample_store = Some (r1, σ1)
    /\ processedData_st ordinalCompare asciiLowerCase 1%positive
         {| key := Some Key.source; direction := ascending |}
         [(Key.source, "b"%string)] σ1 = Some (r2, σ2)
    /\ r1 <> r2
    /\ arrays σ2 !! r1
       = Some (processedData (deref sample_store) ordinalCompare asciiLowerCase
                 [10%positive; 11%positive] (sortConfig initialState) [])
    /\ arrays σ2 !! r2
       = Some (processedData (deref sample_store) ordinalCompare asciiLowerCase
                 [10%positive; 11%positive]
                 {| key := Some Key.source; direction := ascending |}
                 [(Key.source, "b"%string)])
    /\ arrays σ2 !! 1%positive = Some [10%positive; 11%positive]
    /\ objects σ2 = objects sample_store.
Proof.
  apply (X20_rederiving_keeps_earlier_result ordinalCompare asciiLowerCase
           sample_store
           1%positive [10%positive; 11%positive]).
  reflexivity.
Defined.
